(** * conway-on-site: the notebook state manager and the file endpoint

    A shallow embedding of

    - [src/lib/contexts/notebook-context.tsx]: the React provider holding the
      current notebook, with [selectBlock], [updateBlock] and [createBlock];
    - [src/app/api/files/[...path]/route.ts]: the [GET] and [DELETE] handlers
      of the file endpoint.

    JavaScript exceptions are an explicit [outcome]; the React state, the
    console and the requests sent to the server are threaded through a small
    state-and-error monad. *)

From stdpp Require Import base numbers list strings sorting.

Local Open Scope Z_scope.

(** ** Exceptions and effects *)

(** A thrown JavaScript [Error], reduced to its message. *)
Record Error : Type := mkError { message : string }.

Inductive outcome (A : Type) : Type :=
| Returns (a : A)
| Throws (e : Error).
Arguments Returns {A} a.
Arguments Throws {A} e.

(** Computations over a store [S] that either return or throw. A rejected
    promise of an [async] function is a [Throws]. *)
Definition M (S A : Type) : Type := S → outcome A * S.

Section effects.
Context {S : Type}.

Definition ret {A} (a : A) : M S A := λ s, (Returns a, s).

Definition bind {A B} (c : M S A) (k : A → M S B) : M S B :=
    λ s, match c s with
         | (Returns a, s') => k a s'
         | (Throws e, s') => (Throws e, s')
         end.

Definition throw {A} (e : Error) : M S A := λ s, (Throws e, s).

  (** [try { body } catch (error) { handler }] *)
Definition tryCatch {A} (body : M S A) (handler : Error → M S A) : M S A :=
    λ s, match body s with
         | (Returns a, s') => (Returns a, s')
         | (Throws e, s') => handler e s'
         end.

Definition gets {A} (f : S → A) : M S A := λ s, (Returns (f s), s).

Definition modify (f : S → S) : M S unit := λ s, (Returns tt, f s).

  (** Awaiting a promise that has already been settled by the environment. *)
Definition await {A} (settled : outcome A) : M S A := λ s, (settled, s).
End effects.

Declare Scope eff_scope.
Delimit Scope eff_scope with eff.
Notation "'let*' x ':=' c 'in' k" := (bind c (λ x, k))
  (at level 10, x name, c at level 100, k at level 200) : eff_scope.
Notation "c ';;;' k" := (bind c (λ _, k))
  (at level 100, k at level 200, right associativity) : eff_scope.

(** ** Data model ([@/lib/types]) *)

Inductive BlockType : Type := markdown | python | csv.

(** Modelled from the spec: the declarations of [@/lib/types] are not part of
    the sources at hand.  A block carries the common fields (identifier,
    variant tag, file path, integer position, creation and last-update
    timestamps); [editMode] belongs to markdown blocks, [output] and
    [isExecuting] to python blocks.  At run time a block is a plain object, so
    the variant fields are optional properties of one record.  Positions are
    the integers of the specification, each held in a JavaScript number: a
    position is the integer its number denotes, and the one computation on
    positions, [+= 1], rounds as that number does ([addNumber] below). *)
Module Block.
Record t : Type := mk {
    id : string;
    type : BlockType;
    filePath : string;
    position : Z;
    created : string;
    updated : string;
    editMode : option bool;
    output : option string;
    isExecuting : option bool
  }.
End Block.

(** [Partial<MarkdownBlock | PythonBlock | CsvBlock>]: every property of a
    block, each of them optional. *)
Module Partial.
Record t : Type := mk {
    id : option string;
    type : option BlockType;
    filePath : option string;
    position : option Z;
    created : option string;
    updated : option string;
    editMode : option bool;
    output : option string;
    isExecuting : option bool
  }.

  (** The payload [{}]. *)
Definition empty : t := mk None None None None None None None None None.
End Partial.

Module FileDescriptor.
Record t : Type := mk { path : string; type : BlockType }.
End FileDescriptor.

(** Modelled from the spec: a notebook has an identifier, its blocks and the
    descriptors of its files. *)
Module Notebook.
Record t : Type := mk {
    id : string;
    blocks : list Block.t;
    files : list FileDescriptor.t
  }.
End Notebook.

(** ** The provider's world *)

(** One line written by [console.error]: the label and the error logged. *)
Record LogEntry : Type := mkLog { label : string; logged : Error }.

(** A [POST /api/files] request with body [{ path, content }]. *)
Record Request : Type := mkRequest { url : string; path : string; content : string }.

(** The two [useState] cells of [NotebookProvider], the console, and the
    requests issued so far. *)
Record World : Type := mkWorld {
  notebook : option Notebook.t;
  selectedBlockId : option string;
  console : list LogEntry;
  network : list Request
}.

Definition setNotebook (nb : Notebook.t) : M World unit :=
  modify (λ w, mkWorld (Some nb) (selectedBlockId w) (console w) (network w)).

Definition setSelectedBlockId (id : option string) : M World unit :=
  modify (λ w, mkWorld (notebook w) id (console w) (network w)).

Definition console_error (lbl : string) (e : Error) : M World unit :=
  modify (λ w, mkWorld (notebook w) (selectedBlockId w)
                       (console w ++ [mkLog lbl e]) (network w)).

(** ** [selectBlock] *)

Definition selectBlock (id : option string) : M World unit :=
  setSelectedBlockId id.

(** ** [updateBlock] *)

(** The object spread [{ ...block, ...updates }]: every property present in
    [updates] replaces the one of [block]. *)
Definition spread (block : Block.t) (updates : Partial.t) : Block.t :=
  {| Block.id := default (Block.id block) (Partial.id updates);
     Block.type := default (Block.type block) (Partial.type updates);
     Block.filePath := default (Block.filePath block) (Partial.filePath updates);
     Block.position := default (Block.position block) (Partial.position updates);
     Block.created := default (Block.created block) (Partial.created updates);
     Block.updated := default (Block.updated block) (Partial.updated updates);
     Block.editMode :=
       match Partial.editMode updates with
       | Some v => Some v
       | None => Block.editMode block
       end;
     Block.output :=
       match Partial.output updates with
       | Some v => Some v
       | None => Block.output block
       end;
     Block.isExecuting :=
       match Partial.isExecuting updates with
       | Some v => Some v
       | None => Block.isExecuting block
       end |}.

(** The callback given to [notebook.blocks.map].  The three branches differ
    only in their [as] type assertion, which has no effect at run time. *)
Definition updateOne (id : string) (updates : Partial.t) (block : Block.t) : Block.t :=
  if bool_decide (Block.id block ≠ id) then block
  else match Block.type block with
       | markdown => spread block updates
       | python => spread block updates
       | csv => spread block updates
       end.

Definition updateBlock (id : string) (updates : Partial.t) : M World unit :=
  (let* current := gets notebook in
   match current with
   | None => ret tt
   | Some nb =>
       let updatedBlocks := updateOne id updates <$> Notebook.blocks nb in
       setNotebook {| Notebook.id := Notebook.id nb;
                      Notebook.blocks := updatedBlocks;
                      Notebook.files := Notebook.files nb |}
   end)%eff.

(** ** [createBlock] *)

(** What a call of [createBlock] obtains from its environment: the clock
    ([new Date().toISOString()]), [generateUUID()] of [@/lib/utils], and how
    the promise of [fetch('/api/files', ...)] settles. *)
Record Env : Type := mkEnv {
  now : string;
  uuid : string;
  fetched : outcome unit
}.

(** The extension chosen in the template literal of [filePath]. *)
Definition extension (type : BlockType) : string :=
  match type with
  | markdown => "md"
  | python => "py"
  | csv => "csv"
  end.

Definition filePathOf (notebookId id : string) (type : BlockType) : string :=
  notebookId +:+ "/" +:+ id +:+ "." +:+ extension type.

(** The object literal built for the requested variant. *)
Definition newBlockOf (type : BlockType) (id filePath : string)
    (newPosition : Z) (now : string) : Block.t :=
  match type with
  | markdown =>
      Block.mk id markdown filePath newPosition now now (Some true) None None
  | python =>
      Block.mk id python filePath newPosition now now None (Some EmptyString) (Some false)
  | csv =>
      Block.mk id csv filePath newPosition now now None None None
  end.

(** JavaScript numbers are IEEE 754 doubles, whose significand has 53 bits.
    [roundToDouble z] is the double nearest to the integer [z], ties going to
    the even significand: integers of magnitude below 2^53 are kept, larger
    ones lose their low bits.  (Magnitudes of 2^1024 and more, which a double
    replaces by an infinity, are not reached by adding to a double.) *)
Definition roundToDouble (z : Z) : Z :=
  let magnitude := Z.abs z in
  if bool_decide (magnitude < 9007199254740992) then z
  else
    let dropped := Z.log2 magnitude - 52 in
    let significand := magnitude `div` 2 ^ dropped in
    let rest := magnitude `mod` 2 ^ dropped in
    let half := 2 ^ (dropped - 1) in
    let roundUp := (half <? rest) || ((rest =? half) && Z.odd significand) in
    Z.sgn z * ((if roundUp then significand + 1 else significand) * 2 ^ dropped).

(** [x + y] on numbers holding integers. *)
Definition addNumber (x y : Z) : Z := roundToDouble (x + y).

(** [block.position += 1] *)
Definition bump (block : Block.t) : Block.t :=
  Block.mk (Block.id block) (Block.type block) (Block.filePath block)
           (addNumber (Block.position block) 1)
           (Block.created block) (Block.updated block)
           (Block.editMode block) (Block.output block) (Block.isExecuting block).

(** One iteration of the renumbering loop, at index [i].  The array is a
    copy of [notebook.blocks] holding the same block objects, one per entry;
    the notebook they came from is replaced by [setNotebook] below, so the
    model keeps the renumbered array only. *)
Definition shiftStep (newPosition : Z) (updatedBlocks : list Block.t) (i : nat)
    : list Block.t :=
  match updatedBlocks !! i with
  | Some block =>
      if bool_decide (Block.position block >= newPosition)
      then <[i := bump block]> updatedBlocks
      else updatedBlocks
  | None => updatedBlocks
  end.

(** [for (let i = 0; i < updatedBlocks.length; i++) { ... }] *)
Definition shiftLoop (newPosition : Z) (updatedBlocks : list Block.t) : list Block.t :=
  foldl (shiftStep newPosition) updatedBlocks (seq 0 (length updatedBlocks)).

(** [Array.prototype.sort] with a comparator: the sort is stable, and an
    element goes after another one only where the comparator is positive.
    Insertion from the right end realises exactly that order. *)
Section sort.
Context {A : Type} (compareFn : A → A → Z).

Fixpoint insertSorted (x : A) (l : list A) : list A :=
  match l with
  | [] => [x]
  | y :: l' =>
      if bool_decide (compareFn x y ≤ 0) then x :: y :: l'
      else y :: insertSorted x l'
  end.

Fixpoint sort (l : list A) : list A :=
  match l with
  | [] => []
  | x :: l' => insertSorted x (sort l')
  end.
End sort.

(** [(a, b) => a.position - b.position].  The sort looks at the sign of the
    result only, which the rounding of the difference to a double does not
    change ([roundToDouble_sign] below); the difference is therefore taken in
    the integers. *)
Definition byPosition (a b : Block.t) : Z := Block.position a - Block.position b.

Definition positions (blocks : list Block.t) : list Z := Block.position <$> blocks.

Definition createBlock (env : Env) (type : BlockType) (position : option Z)
    : M World string :=
  (let* current := gets notebook in
   match current with
   | None => throw (mkError "No notebook loaded")
   | Some nb =>
       let now := now env in
       let id := uuid env in
       let newPosition :=
         match position with
         | Some p => p
         | None => Z.of_nat (length (Notebook.blocks nb))
         end in
       let filePath := filePathOf (Notebook.id nb) id type in
       let newBlock := newBlockOf type id filePath newPosition now in
       let updatedBlocks := Notebook.blocks nb in
       let updatedBlocks :=
         match position with
         | Some _ => shiftLoop newPosition updatedBlocks
         | None => updatedBlocks
         end in
       let updatedBlocks := updatedBlocks ++ [newBlock] in
       let updatedBlocks := sort byPosition updatedBlocks in
       setNotebook {| Notebook.id := Notebook.id nb;
                      Notebook.blocks := updatedBlocks;
                      Notebook.files :=
                        Notebook.files nb ++ [FileDescriptor.mk filePath type] |} ;;;
       tryCatch
         (modify (λ w, mkWorld (notebook w) (selectedBlockId w) (console w)
                               (network w ++ [mkRequest "/api/files" filePath EmptyString])) ;;;
          await (fetched env))
         (λ error, console_error "Failed to create file:" error) ;;;
       ret id
   end)%eff.

(** A call of [createBlock] as the user interface issues it. *)
Record Call : Type := mkCall {
  callEnv : Env;
  callType : BlockType;
  callPosition : option Z
}.

(** The world after a call; the returned promise is dropped. *)
Definition afterCreate (w : World) (c : Call) : World :=
  snd (createBlock (callEnv c) (callType c) (callPosition c) w).

(** A sequence of calls, each one seeing the state committed by the one
    before it. *)
Definition createBlocks (calls : list Call) (w : World) : World :=
  foldl afterCreate w calls.

(** The blocks of the current notebook, none when no notebook is loaded. *)
Definition currentBlocks (w : World) : list Block.t :=
  match notebook w with
  | Some nb => Notebook.blocks nb
  | None => []
  end.

(** ** The file endpoint ([route.ts]) *)

Module Route.

  (** The [{ params }] argument of a handler of [/api/files/[...path]]. *)
Record Params : Type := mkParams { path : list string }.

  (** The JSON bodies the two handlers send. *)
Inductive Body : Type :=
  | ContentBody (content : string)
  | SuccessBody (success : bool)
  | ErrorBody (error : string).

Record Response : Type := mkResponse { status : Z; body : Body }.

  (** [NextResponse.json(body)] and [NextResponse.json(body, { status })]. *)
Definition json (b : Body) (init : option Z) : Response :=
    mkResponse (default 200 init) b.

Section handlers.
    (** The storage behind [@/lib/storage], of which only the contract is
        known: [getFile] and [deleteFile] work on some store and may fail. *)
Context {Store : Type}.

Record StorageService : Type := mkStorageService {
      getFile : string → M Store string;
      deleteFile : string → M Store unit
    }.

Record Server : Type := mkServer {
      storage : Store;
      serverConsole : list LogEntry
    }.

    (** A call into the storage collaborator, run on the server's store. *)
Definition onStorage {A} (c : M Store A) : M Server A :=
      λ s, let '(r, st) := c (storage s) in (r, mkServer st (serverConsole s)).

Definition serverError (lbl : string) (e : Error) : M Server unit :=
      modify (λ s, mkServer (storage s) (serverConsole s ++ [mkLog lbl e])).

    (** [getStorageService()], which hands out the service or throws. *)
Context (getStorageService : outcome StorageService).

    (** [params.path.join('/')] *)
Definition joined (params : Params) : string := String.concat "/" (path params).

Definition GET (params : Params) : M Server Response :=
      (tryCatch
         (let filePath := joined params in
          let* storageService := await getStorageService in
          let* content := onStorage (getFile storageService filePath) in
          ret (json (ContentBody content) None))
         (λ error,
            serverError ("Error fetching file " +:+ joined params +:+ ":") error ;;;
            ret (json (ErrorBody "Failed to fetch file") (Some 500))))%eff.

Definition DELETE (params : Params) : M Server Response :=
      (tryCatch
         (let filePath := joined params in
          let* storageService := await getStorageService in
          onStorage (deleteFile storageService filePath) ;;;
          ret (json (SuccessBody true) None))
         (λ error,
            serverError ("Error deleting file " +:+ joined params +:+ ":") error ;;;
            ret (json (ErrorBody "Failed to delete file") (Some 500))))%eff.
End handlers.

Arguments StorageService : clear implicits.
Arguments Server : clear implicits.

End Route.

(** ** Notions used by the statements *)

(** What the renumbering loop does to one block. *)
Definition shifted (newPosition : Z) (block : Block.t) : Block.t :=
  if bool_decide (Block.position block >= newPosition) then bump block else block.

(** Where [sort] puts an element that was last in the array: behind every
    element it does not have to precede. *)
Fixpoint insertLast (x : Block.t) (l : list Block.t) : list Block.t :=
  match l with
  | [] => [x]
  | y :: l' =>
      if bool_decide (byPosition y x ≤ 0) then y :: insertLast x l'
      else x :: y :: l'
  end.

(** [Number.isSafeInteger]: an integer of magnitude below 2^53. *)
Definition safe (z : Z) : Prop := -9007199254740992 < z < 9007199254740992.

(** Every block sits at a safe integer. *)
Definition safePositions (blocks : list Block.t) : Prop :=
  Forall (λ block, safe (Block.position block)) blocks.

(** A safe integer that is still one after [k] more increments. *)
Definition safeFor (k : nat) (z : Z) : Prop :=
  -9007199254740992 < z ∧ z + Z.of_nat k < 9007199254740992.

(** No two blocks share a position. *)
Definition distinctPositions (blocks : list Block.t) : Prop :=
  NoDup (positions blocks).

(** Positions strictly increase along the list. *)
Definition increasing (blocks : list Block.t) : Prop :=
  StronglySorted Z.lt (positions blocks).

(** Positions never decrease along the list. *)
Definition ordered (blocks : list Block.t) : Prop :=
  StronglySorted Z.le (positions blocks).

(** The extension as the specification spells it, with its dot. *)
Definition dottedExtension (type : BlockType) : string :=
  match type with
  | markdown => ".md"
  | python => ".py"
  | csv => ".csv"
  end.

(** The block a call of [createBlock] builds, given the loaded notebook. *)
Definition targetPosition (position : option Z) (nb : Notebook.t) : Z :=
  match position with
  | Some p => p
  | None => Z.of_nat (length (Notebook.blocks nb))
  end.

Definition createdPath (env : Env) (type : BlockType) (nb : Notebook.t) : string :=
  filePathOf (Notebook.id nb) (uuid env) type.

Definition createdBlock (env : Env) (type : BlockType) (position : option Z)
    (nb : Notebook.t) : Block.t :=
  newBlockOf type (uuid env) (createdPath env type nb)
             (targetPosition position nb) (now env).

(** What the renumbering does to a pre-existing block, for either kind of
    call: nothing when no position was given. *)
Definition renumbered (position : option Z) (block : Block.t) : Block.t :=
  match position with
  | Some p => shifted p block
  | None => block
  end.

(** What the [catch] of the file creation writes to the console. *)
Definition createLog (env : Env) : list LogEntry :=
  match fetched env with
  | Returns _ => []
  | Throws error => [mkLog "Failed to create file:" error]
  end.

(** ** Sample data *)

Definition sampleBlock (id : string) (type : BlockType) (position : Z) : Block.t :=
  newBlockOf type id (filePathOf "nb" id type) position "2024-01-01T00:00:00.000Z".

Definition sampleNotebook (blocks : list Block.t) : Notebook.t :=
  Notebook.mk "nb" blocks
    ((λ b, FileDescriptor.mk (Block.filePath b) (Block.type b)) <$> blocks).

Definition sampleWorld (blocks : list Block.t) : World :=
  mkWorld (Some (sampleNotebook blocks)) None [] [].

Definition emptyWorld : World := mkWorld None None [] [].

Definition sampleEnv (id : string) : Env :=
  mkEnv "2024-06-01T12:00:00.000Z" id (Returns tt).

Definition offlineEnv (id : string) : Env :=
  mkEnv "2024-06-01T12:00:00.000Z" id (Throws (mkError "Failed to fetch")).

Definition threeBlocks : list Block.t :=
  [sampleBlock "a" markdown 0; sampleBlock "b" python 1; sampleBlock "c" csv 2].

(** The payload [{ type: 'python' }]. *)
Definition retagPayload : Partial.t :=
  Partial.mk None (Some python) None None None None None None None.

(** The payload [{ output: 'done', isExecuting: false }]. *)
Definition outputPayload : Partial.t :=
  Partial.mk None None None None None None None (Some "done") (Some false).

(** A storage kept as an association list; a missing file is an error. *)
Definition sampleGetFile (filePath : string) : M (list (string * string)) string :=
  λ store,
    match list_find (λ entry, entry.1 = filePath) store with
    | Some (_, entry) => (Returns entry.2, store)
    | None => (Throws (mkError "ENOENT"), store)
    end.

Definition sampleDeleteFile (filePath : string) : M (list (string * string)) unit :=
  λ store,
    match list_find (λ entry, entry.1 = filePath) store with
    | Some _ => (Returns tt, filter (λ entry, entry.1 ≠ filePath) store)
    | None => (Throws (mkError "ENOENT"), store)
    end.

Definition sampleStorage : Route.StorageService (list (string * string)) :=
  Route.mkStorageService sampleGetFile sampleDeleteFile.

Definition sampleServer : Route.Server (list (string * string)) :=
  Route.mkServer [("a/b.txt", "hello")] [].

(** ** Sessions of the user interface *)

(** The operations a component obtains from [useNotebook()] and calls on the
    state it sees; [setNotebook], which loads another notebook, is left
    to the properties that name it. *)
Inductive Action : Type :=
| Select (id : option string)
| Update (id : string) (updates : Partial.t)
| Create (call : Call).

(** The world after one action, the next render seeing the state it
    committed. *)
Definition perform (w : World) (action : Action) : World :=
  match action with
  | Select id => snd (selectBlock id w)
  | Update id updates => snd (updateBlock id updates w)
  | Create call => afterCreate w call
  end.

Definition session (actions : list Action) (w : World) : World :=
  foldl perform w actions.

(** How many [createBlock] calls a session makes. *)
Fixpoint creations (actions : list Action) : nat :=
  match actions with
  | [] => 0%nat
  | Create _ :: actions' => S (creations actions')
  | _ :: actions' => creations actions'
  end.

(** The files of the current notebook, none when no notebook is loaded. *)
Definition currentFiles (w : World) : list FileDescriptor.t :=
  match notebook w with
  | Some nb => Notebook.files nb
  | None => []
  end.

(** The payload [{ ...first, ...second }]. *)
Definition mergePayload (first second : Partial.t) : Partial.t :=
  {| Partial.id := match Partial.id second with Some v => Some v | None => Partial.id first end;
     Partial.type := match Partial.type second with Some v => Some v | None => Partial.type first end;
     Partial.filePath :=
       match Partial.filePath second with Some v => Some v | None => Partial.filePath first end;
     Partial.position :=
       match Partial.position second with Some v => Some v | None => Partial.position first end;
     Partial.created :=
       match Partial.created second with Some v => Some v | None => Partial.created first end;
     Partial.updated :=
       match Partial.updated second with Some v => Some v | None => Partial.updated first end;
     Partial.editMode :=
       match Partial.editMode second with Some v => Some v | None => Partial.editMode first end;
     Partial.output :=
       match Partial.output second with Some v => Some v | None => Partial.output first end;
     Partial.isExecuting :=
       match Partial.isExecuting second with
       | Some v => Some v
       | None => Partial.isExecuting first
       end |}.

(** Positions 0, 1, ..., n-1 in list order: what a notebook built by
    appending looks like. *)
Definition dense (blocks : list Block.t) : Prop :=
  positions blocks = seqZ 0 (Z.of_nat (length blocks)).

(** ** More sample data *)

(** The payload [{ editMode: false }]. *)
Definition editPayload : Partial.t :=
  Partial.mk None None None None None None (Some false) None None.

(** Blocks at positions 3 and 7. *)
Definition sparseBlocks : list Block.t :=
  [sampleBlock "a" markdown 3; sampleBlock "b" python 7].

(** 2^53, the first integer whose successor is not a double. *)
Definition twoTo53 : Z := 9007199254740992.

(** A notebook whose only block sits at 2^53. *)
Definition farBlocks : list Block.t := [sampleBlock "a" markdown twoTo53].

Definition sampleSession : list Action :=
  [Create (mkCall (sampleEnv "x") markdown None);
   Select (Some "x");
   Update "x" editPayload;
   Create (mkCall (offlineEnv "y") python (Some 0))].

(** * Properties *)

(** ** The renumbering loop *)

Lemma shiftStep_middle p (seen todo : list Block.t) b :
  shiftStep p (seen ++ b :: todo) (length seen) = seen ++ shifted p b :: todo.
Proof.
  unfold shiftStep, shifted.
  rewrite list_lookup_middle by done.
  case_bool_decide; [|done].
  replace (length seen) with (length seen + 0)%nat by lia.
  by rewrite insert_app_r.
Qed.

Lemma shiftLoop_from p (todo seen : list Block.t) :
  foldl (shiftStep p) (seen ++ todo) (seq (length seen) (length todo))
  = seen ++ (shifted p <$> todo).
Proof.
  revert seen. induction todo as [|b todo IH]; intros seen; [done|].
  cbn [length seq foldl fmap list_fmap].
  rewrite shiftStep_middle.
  specialize (IH (seen ++ [shifted p b])).
  rewrite length_app, <- !(assoc_L (++)) in IH. cbn in IH.
  replace (length seen + 1)%nat with (S (length seen)) in IH by lia.
  exact IH.
Qed.

(** The loop visits every index once, so it is a [map]. *)
Lemma shiftLoop_fmap p (blocks : list Block.t) :
  shiftLoop p blocks = shifted p <$> blocks.
Proof. exact (shiftLoop_from p blocks []). Qed.

Lemma shifted_ge p b :
  p ≤ Block.position b → shifted p b = bump b.
Proof. intros. unfold shifted. case_bool_decide; [done|lia]. Qed.

Lemma shifted_lt p b :
  Block.position b < p → shifted p b = b.
Proof. intros. unfold shifted. case_bool_decide; [lia|done]. Qed.

(** On safe integers the addition of doubles is the addition of integers. *)
Lemma addNumber_safe z : safe z → addNumber z 1 = z + 1.
Proof.
  intros [Hlow Hhigh]. unfold addNumber, roundToDouble.
  case_bool_decide as Hmagnitude; [done|].
  assert (z + 1 = 9007199254740992) as -> by lia.
  by vm_compute.
Qed.

(** Rounding never changes the sign, so a comparator that subtracts two
    numbers orders them as the integers they hold. *)
Lemma roundToDouble_sign z : roundToDouble z ≤ 0 ↔ z ≤ 0.
Proof.
  unfold roundToDouble. case_bool_decide as Hsmall; [done|].
  set (a := Z.abs z) in *. set (e := Z.log2 a - 52).
  assert (53 ≤ Z.log2 a) as Hlog.
  { change 53 with (Z.log2 9007199254740992). apply Z.log2_le_mono. lia. }
  assert (0 < 2 ^ e) as Hpow by (apply Z.pow_pos_nonneg; lia).
  assert (2 ^ e ≤ a) as Hle.
  { etrans; [apply (Z.pow_le_mono_r 2 e (Z.log2 a)); lia|].
    apply Z.log2_spec. lia. }
  assert (0 < a `div` 2 ^ e) as Hq by (apply Z.div_str_pos; lia).
  set (q := a `div` 2 ^ e) in *.
  destruct (_ || _);
    [assert (0 < (q + 1) * 2 ^ e) as Hpos by (apply Z.mul_pos_pos; lia)
    |assert (0 < q * 2 ^ e) as Hpos by (apply Z.mul_pos_pos; lia)];
  subst a; destruct (Z.sgn_spec z) as [[? ->]|[[? ->]|[? ->]]]; lia.
Qed.

Lemma byPosition_sign a b :
  roundToDouble (byPosition a b) ≤ 0 ↔ byPosition a b ≤ 0.
Proof. apply roundToDouble_sign. Qed.

(** At 2^53 it is not: the successor is not a double and rounds back. *)
Lemma addNumber_twoTo53 : addNumber twoTo53 1 = twoTo53.
Proof. by vm_compute. Qed.

Lemma bump_position b :
  safe (Block.position b) → Block.position (bump b) = Block.position b + 1.
Proof. intros Hsafe. cbn. by apply addNumber_safe. Qed.

Lemma shifted_position p b :
  safe (Block.position b) →
  Block.position (shifted p b)
  = if bool_decide (Block.position b >= p) then Block.position b + 1
    else Block.position b.
Proof.
  intros Hsafe. unfold shifted. case_bool_decide; [|done].
  by apply bump_position.
Qed.

Lemma shifted_mono p a b :
  safe (Block.position a) → safe (Block.position b) →
  Block.position a ≤ Block.position b ↔
  Block.position (shifted p a) ≤ Block.position (shifted p b).
Proof.
  intros Ha Hb. rewrite !shifted_position by done.
  repeat case_bool_decide; lia.
Qed.

Lemma shifted_strict p a b :
  safe (Block.position a) → safe (Block.position b) →
  Block.position a < Block.position b ↔
  Block.position (shifted p a) < Block.position (shifted p b).
Proof.
  intros Ha Hb. rewrite !shifted_position by done.
  repeat case_bool_decide; lia.
Qed.

Lemma shifted_avoids p b :
  safe (Block.position b) → Block.position (shifted p b) ≠ p.
Proof.
  intros Hb. rewrite shifted_position by done.
  case_bool_decide; lia.
Qed.

Lemma safePositions_perm l k : l ≡ₚ k → safePositions l → safePositions k.
Proof. unfold safePositions. by intros ->. Qed.

(** ** The stable sort *)

Section sort_facts.
Context {A : Type} (compareFn : A → A → Z).

Lemma insertSorted_perm x l : insertSorted compareFn x l ≡ₚ x :: l.
Proof.
  induction l as [|y l IH]; cbn; [done|].
  case_bool_decide; [done|].
  rewrite IH. apply Permutation_swap.
Qed.

Lemma sort_perm l : sort compareFn l ≡ₚ l.
Proof.
  induction l as [|x l IH]; cbn; [done|].
  by rewrite insertSorted_perm, IH.
Qed.
End sort_facts.

Lemma insertLast_split x l :
  ∃ before after, insertLast x l = before ++ x :: after ∧ before ++ after = l.
Proof.
  induction l as [|y l (before & after & E1 & E2)]; cbn.
  - by exists [], [].
  - case_bool_decide.
    + exists (y :: before), after. cbn. by rewrite E1, E2.
    + by exists [], (y :: l).
Qed.

(** An element inserted from the front and one inserted from the back do not
    disturb each other. *)
Lemma insertSorted_insertLast a x l :
  insertSorted byPosition a (insertLast x l)
  = insertLast x (insertSorted byPosition a l).
Proof.
  induction l as [|y l IH]; cbn;
    repeat (case_bool_decide; cbn); rewrite ?IH;
    unfold byPosition in *; first [done | lia].
Qed.

(** Sorting an array whose last element was just pushed. *)
Lemma sort_snoc x l :
  sort byPosition (l ++ [x]) = insertLast x (sort byPosition l).
Proof.
  induction l as [|a l IH]; cbn; [done|].
  by rewrite IH, insertSorted_insertLast.
Qed.

Lemma insertSorted_shifted p x l :
  safe (Block.position x) → safePositions l →
  insertSorted byPosition (shifted p x) (shifted p <$> l)
  = shifted p <$> insertSorted byPosition x l.
Proof.
  intros Hx Hl. induction Hl as [|y l Hy Hl IH]; cbn; [done|].
  rewrite (bool_decide_ext (byPosition (shifted p x) (shifted p y) ≤ 0)
                           (byPosition x y ≤ 0)).
  - case_bool_decide; cbn; [done|]. by rewrite IH.
  - unfold byPosition. pose proof (shifted_mono p x y Hx Hy). lia.
Qed.

(** On safe integers renumbering keeps the order of the positions, so it
    commutes with the sort. *)
Lemma sort_shifted p l :
  safePositions l →
  sort byPosition (shifted p <$> l) = shifted p <$> sort byPosition l.
Proof.
  intros Hl. induction Hl as [|x l Hx Hl IH]; cbn; [done|].
  rewrite IH, insertSorted_shifted; [done|done|].
  apply (safePositions_perm l); [|done].
  symmetry. apply sort_perm.
Qed.

Lemma insertSorted_ordered x l :
  ordered l → ordered (insertSorted byPosition x l).
Proof.
  unfold ordered, positions.
  induction l as [|y l IH]; cbn; intros Hl.
  - repeat constructor.
  - apply StronglySorted_inv in Hl as [Hl Hy].
    case_bool_decide as Hxy; cbn; unfold byPosition in Hxy.
    + constructor; [by constructor|].
      constructor; [lia|].
      eapply Forall_impl; [exact Hy|]. cbn. lia.
    + constructor; [by apply IH|].
      rewrite (insertSorted_perm byPosition x l). cbn.
      constructor; [lia|done].
Qed.

Lemma sort_ordered l : ordered (sort byPosition l).
Proof.
  induction l as [|x l IH]; cbn; [constructor|].
  by apply insertSorted_ordered.
Qed.

(** A list already in position order is left as it is. *)
Lemma sort_of_ordered l : ordered l → sort byPosition l = l.
Proof.
  unfold ordered, positions.
  induction l as [|x l IH]; cbn; [done|]. intros Hl.
  apply StronglySorted_inv in Hl as [Hl Hx].
  rewrite (IH Hl). destruct l as [|y l]; cbn; [done|].
  apply Forall_cons in Hx as [Hxy _].
  unfold byPosition. case_bool_decide; [done|lia].
Qed.

Lemma le_sorted_distinct (zs : list Z) :
  StronglySorted Z.le zs → NoDup zs → StronglySorted Z.lt zs.
Proof.
  induction zs as [|z zs IH]; intros Hs Hd; [constructor|].
  apply StronglySorted_inv in Hs as [Hs Hz].
  apply NoDup_cons in Hd as [Hnin Hd].
  constructor; [by apply IH|].
  apply Forall_forall. intros y Hy.
  rewrite Forall_forall in Hz. specialize (Hz y Hy).
  assert (z ≠ y) by (intros ->; done). lia.
Qed.

Lemma lt_sorted_distinct (zs : list Z) :
  StronglySorted Z.lt zs → NoDup zs.
Proof.
  induction zs as [|z zs IH]; intros Hs; [constructor|].
  apply StronglySorted_inv in Hs as [Hs Hz].
  apply NoDup_cons. split; [|by apply IH].
  intros Hin. rewrite Forall_forall in Hz. specialize (Hz z Hin). lia.
Qed.

Lemma lt_sorted_le (zs : list Z) :
  StronglySorted Z.lt zs → StronglySorted Z.le zs.
Proof.
  induction 1 as [|z zs Hs IH Hz]; constructor; [done|].
  eapply Forall_impl; [exact Hz|]. cbn. lia.
Qed.

(** Blocks of equal position stay in the order they had: the sort is the
    stable one. *)
Lemma insertSorted_stable k x l :
  filter (λ b, Block.position b = k) (insertSorted byPosition x l)
  = filter (λ b, Block.position b = k) (x :: l).
Proof.
  induction l as [|y l IH]; cbn; [done|].
  case_bool_decide as Hxy; [done|]. unfold byPosition in Hxy.
  rewrite !filter_cons in *.
  repeat case_decide; rewrite ?IH; first [done | lia].
Qed.

Lemma sort_stable k l :
  filter (λ b, Block.position b = k) (sort byPosition l)
  = filter (λ b, Block.position b = k) l.
Proof.
  induction l as [|x l IH]; cbn; [done|].
  by rewrite insertSorted_stable, !filter_cons, IH.
Qed.

(** ** What [createBlock] computes on a loaded notebook *)

Lemma renumbered_loop position nb :
  match position with
  | Some _ => shiftLoop (targetPosition position nb) (Notebook.blocks nb)
  | None => Notebook.blocks nb
  end = renumbered position <$> Notebook.blocks nb.
Proof.
  destruct position as [p|]; cbn.
  - apply shiftLoop_fmap.
  - by rewrite list_fmap_id.
Qed.

Lemma createBlock_loaded env type position w nb :
  notebook w = Some nb →
  createBlock env type position w =
  (Returns (uuid env),
   mkWorld
     (Some (Notebook.mk (Notebook.id nb)
              (sort byPosition ((renumbered position <$> Notebook.blocks nb)
                                ++ [createdBlock env type position nb]))
              (Notebook.files nb ++ [FileDescriptor.mk (createdPath env type nb) type])))
     (selectedBlockId w)
     (console w ++ createLog env)
     (network w ++ [mkRequest "/api/files" (createdPath env type nb) EmptyString])).
Proof.
  intros Hnb. unfold createBlock, bind, gets. rewrite Hnb.
  pose proof (renumbered_loop position nb) as Hloop.
  unfold targetPosition in Hloop. rewrite Hloop.
  unfold createLog, tryCatch, setNotebook, modify, await, console_error, modify, ret.
  cbn. destruct (fetched env) as [[]|error]; cbn; [|done].
  by rewrite app_nil_r.
Qed.

Lemma createBlock_unloaded env type position w :
  notebook w = None →
  createBlock env type position w = (Throws (mkError "No notebook loaded"), w).
Proof. intros Hnb. unfold createBlock, bind, gets. by rewrite Hnb. Qed.

Lemma renumbered_sort position l :
  (is_Some position → safePositions l) →
  sort byPosition (renumbered position <$> l)
  = renumbered position <$> sort byPosition l.
Proof.
  destruct position as [p|]; cbn; intros Hsafe.
  - apply sort_shifted, Hsafe. by eexists.
  - by rewrite !list_fmap_id.
Qed.

Lemma currentBlocks_created env type position w nb :
  notebook w = Some nb →
  (is_Some position → safePositions (Notebook.blocks nb)) →
  currentBlocks (snd (createBlock env type position w))
  = insertLast (createdBlock env type position nb)
      (renumbered position <$> sort byPosition (Notebook.blocks nb)).
Proof.
  intros Hnb Hsafe. rewrite (createBlock_loaded _ _ _ _ _ Hnb). cbn.
  by rewrite sort_snoc, renumbered_sort.
Qed.

Lemma currentBlocks_perm env type position w nb :
  notebook w = Some nb →
  currentBlocks (snd (createBlock env type position w))
  ≡ₚ (renumbered position <$> Notebook.blocks nb)
     ++ [createdBlock env type position nb].
Proof.
  intros Hnb. rewrite (createBlock_loaded _ _ _ _ _ Hnb). cbn.
  apply sort_perm.
Qed.

Lemma createdBlock_position env type position nb :
  Block.position (createdBlock env type position nb) = targetPosition position nb.
Proof. by destruct type. Qed.

Lemma createdBlock_id env type position nb :
  Block.id (createdBlock env type position nb) = uuid env.
Proof. by destruct type. Qed.

Lemma createdBlock_filePath env type position nb :
  Block.filePath (createdBlock env type position nb) = createdPath env type nb.
Proof. by destruct type. Qed.

Lemma createdBlock_type env type position nb :
  Block.type (createdBlock env type position nb) = type.
Proof. by destruct type. Qed.

(** ** [updateBlock] *)

Lemma updateOne_other id updates block :
  Block.id block ≠ id → updateOne id updates block = block.
Proof. intros. unfold updateOne. by rewrite bool_decide_eq_true_2. Qed.

Lemma updateOne_match updates block :
  updateOne (Block.id block) updates block = spread block updates.
Proof.
  unfold updateOne. rewrite bool_decide_eq_false_2 by (intros ?; done).
  by destruct (Block.type block).
Qed.

(** The tag survives exactly the payloads that carry none. *)
Lemma updateOne_type id updates block :
  Partial.type updates = None →
  Block.type (updateOne id updates block) = Block.type block.
Proof.
  intros Hnone. unfold updateOne.
  case_bool_decide; [done|].
  destruct (Block.type block) eqn:Htype; cbn; by rewrite Hnone.
Qed.

Lemma updateBlock_loaded id updates w nb :
  notebook w = Some nb →
  updateBlock id updates w =
  (Returns tt,
   mkWorld (Some (Notebook.mk (Notebook.id nb)
                    (updateOne id updates <$> Notebook.blocks nb)
                    (Notebook.files nb)))
           (selectedBlockId w) (console w) (network w)).
Proof. intros Hnb. unfold updateBlock, bind, gets. by rewrite Hnb. Qed.

(** C1, as the code has it: a payload carrying a [type] property replaces the
    tag of the block it is merged into.  The markdown block ["a"] is a python
    block after [updateBlock("a", { type: 'python' })]. *)
Theorem updateBlock_overwrites_type :
  let w := sampleWorld [sampleBlock "a" markdown 0] in
  Block.type <$> currentBlocks w = [markdown] ∧
  fst (updateBlock "a" retagPayload w) = Returns tt ∧
  currentBlocks (snd (updateBlock "a" retagPayload w))
  = [Block.mk "a" python "nb/a.md" 0 "2024-01-01T00:00:00.000Z"
       "2024-01-01T00:00:00.000Z" (Some true) None None] ∧
  Block.type <$> currentBlocks (snd (updateBlock "a" retagPayload w)) = [python].
Proof. intros w. subst w. repeat split; vm_compute; reflexivity. Qed.

(** C7: [updateBlock] with an identifier that no block of the loaded notebook
    carries returns normally and leaves the world as it was: the blocks with
    all their fields, the file list, the selection, the console and the
    network. *)
Theorem updateBlock_unknown_id id updates w nb :
  notebook w = Some nb →
  (∀ block, block ∈ Notebook.blocks nb → Block.id block ≠ id) →
  updateBlock id updates w = (Returns tt, w).
Proof.
  intros Hnb Hfresh. rewrite (updateBlock_loaded _ _ _ _ Hnb).
  assert (updateOne id updates <$> Notebook.blocks nb = Notebook.blocks nb) as ->.
  { induction (Notebook.blocks nb) as [|block blocks IH]; [done|]. cbn.
    rewrite updateOne_other by (apply Hfresh; left).
    f_equal. apply IH. intros b Hb. apply Hfresh. by right. }
  destruct w as [current sel con net]; cbn in *. subst current.
  by destruct nb.
Qed.

Lemma updateBlock_unknown_id_witness :
  updateBlock "zz" retagPayload (sampleWorld threeBlocks)
  = (Returns tt, sampleWorld threeBlocks).
Proof.
  apply (updateBlock_unknown_id "zz" retagPayload (sampleWorld threeBlocks)
           (sampleNotebook threeBlocks)).
  - reflexivity.
  - intros block Hin. apply list_elem_of_In in Hin. simpl in Hin.
    destruct Hin as [<-|[<-|[<-|[]]]]; discriminate.
Defined.

(** C10: with no notebook loaded, [updateBlock] returns normally and changes
    nothing, whatever the identifier and the payload. *)
Theorem updateBlock_unloaded id updates w :
  notebook w = None →
  updateBlock id updates w = (Returns tt, w).
Proof. intros Hnb. unfold updateBlock, bind, gets. by rewrite Hnb. Qed.

Lemma updateBlock_unloaded_witness :
  updateBlock "a" outputPayload emptyWorld = (Returns tt, emptyWorld).
Proof. apply (updateBlock_unloaded "a" outputPayload emptyWorld). reflexivity. Defined.

(** ** Positions after [createBlock] *)

Lemma shifted_distinct p l :
  safePositions l →
  distinctPositions l → distinctPositions (shifted p <$> l).
Proof.
  unfold distinctPositions, positions.
  induction 1 as [|x l Hsafe Hl IH]; cbn; [done|].
  rewrite !NoDup_cons. intros [Hx Hdistinct]. split; [|by apply IH].
  intros Hin. apply Hx.
  apply list_elem_of_fmap in Hin as (y' & Hpos & Hy').
  apply list_elem_of_fmap in Hy' as (y & -> & Hy).
  apply list_elem_of_fmap. exists y. split; [|done].
  assert (safe (Block.position y)) as Hsafe'
    by (unfold safePositions in Hl; rewrite Forall_forall in Hl; by apply Hl).
  pose proof (shifted_strict p x y Hsafe Hsafe').
  pose proof (shifted_strict p y x Hsafe' Hsafe). lia.
Qed.

Lemma renumbered_distinct position l :
  (is_Some position → safePositions l) →
  distinctPositions l → distinctPositions (renumbered position <$> l).
Proof.
  destruct position as [p|]; cbn; intros Hsafe.
  - apply shifted_distinct, Hsafe. by eexists.
  - by rewrite list_fmap_id.
Qed.

Lemma renumbered_avoids position nb :
  (is_Some position → safePositions (Notebook.blocks nb)) →
  (position = None →
   Z.of_nat (length (Notebook.blocks nb)) ∉ positions (Notebook.blocks nb)) →
  targetPosition position nb ∉ positions (renumbered position <$> Notebook.blocks nb).
Proof.
  destruct position as [p|]; cbn; intros Hsafe Hfree.
  - unfold positions. intros Hin.
    apply list_elem_of_fmap in Hin as (b' & Hpos & Hb').
    apply list_elem_of_fmap in Hb' as (b & -> & Hb).
    apply (shifted_avoids p b); [|done].
    specialize (Hsafe ltac:(by eexists)).
    unfold safePositions in Hsafe. rewrite Forall_forall in Hsafe. by apply Hsafe.
  - rewrite list_fmap_id. by apply Hfree.
Qed.

Lemma created_distinct env type position w nb :
  notebook w = Some nb →
  (is_Some position → safePositions (Notebook.blocks nb)) →
  distinctPositions (Notebook.blocks nb) →
  (position = None →
   Z.of_nat (length (Notebook.blocks nb)) ∉ positions (Notebook.blocks nb)) →
  distinctPositions (currentBlocks (snd (createBlock env type position w))).
Proof.
  intros Hnb Hsafe Hdistinct Hfree. unfold distinctPositions, positions.
  rewrite (currentBlocks_perm _ _ _ _ _ Hnb), fmap_app. cbn.
  rewrite createdBlock_position.
  apply NoDup_app. split_and!.
  - by apply renumbered_distinct.
  - intros z Hz Hlast. apply list_elem_of_singleton in Hlast as ->.
    by apply (renumbered_avoids position nb).
  - apply NoDup_singleton.
Qed.

Lemma created_ordered env type position w nb :
  notebook w = Some nb →
  ordered (currentBlocks (snd (createBlock env type position w))).
Proof.
  intros Hnb. rewrite (createBlock_loaded _ _ _ _ _ Hnb). cbn.
  apply sort_ordered.
Qed.

Lemma renumbered_strict position a b :
  (is_Some position → safe (Block.position a) ∧ safe (Block.position b)) →
  Block.position a < Block.position b ↔
  Block.position (renumbered position a) < Block.position (renumbered position b).
Proof.
  destruct position as [p|]; cbn; intros Hsafe; [|done].
  destruct (Hsafe ltac:(by eexists)). by apply shifted_strict.
Qed.

(** C2, as the code has it: from pairwise-distinct positions, a call with an
    explicit position leaves pairwise-distinct positions when the blocks sit
    at safe integers (of magnitude below 2^53, where adding one is exact); a
    call without a position does so when no block sits at the position equal
    to the block count, the position given to the new block.  In both cases
    the pre-existing blocks keep their relative order: taking the new block
    out of the result leaves them in the order of their former positions,
    and a block that was before another one by position still is. *)
Theorem createBlock_keeps_positions_distinct env type position w nb :
  notebook w = Some nb →
  distinctPositions (Notebook.blocks nb) →
  (is_Some position → safePositions (Notebook.blocks nb)) →
  (position = None →
   Z.of_nat (length (Notebook.blocks nb)) ∉ positions (Notebook.blocks nb)) →
  let after := currentBlocks (snd (createBlock env type position w)) in
  distinctPositions after ∧
  (∃ front back,
     after = front ++ createdBlock env type position nb :: back ∧
     front ++ back = renumbered position <$> sort byPosition (Notebook.blocks nb)) ∧
  (∀ a b, a ∈ Notebook.blocks nb → b ∈ Notebook.blocks nb →
     (Block.position a < Block.position b ↔
      Block.position (renumbered position a) < Block.position (renumbered position b))).
Proof.
  intros Hnb Hdistinct Hsafe Hfree after. split_and!.
  - by apply (created_distinct env type position w nb).
  - subst after. rewrite (currentBlocks_created _ _ _ _ _ Hnb Hsafe).
    apply insertLast_split.
  - intros a b Ha Hb. apply renumbered_strict. intros Hgiven.
    specialize (Hsafe Hgiven). unfold safePositions in Hsafe.
    rewrite Forall_forall in Hsafe. split; by apply Hsafe.
Qed.

Lemma threeBlocks_safe : safePositions threeBlocks.
Proof. repeat constructor; cbn; lia. Qed.

Lemma createBlock_keeps_positions_distinct_witness :
  distinctPositions
    (currentBlocks (snd (createBlock (sampleEnv "n") python (Some 1)
                           (sampleWorld threeBlocks)))) ∧
  distinctPositions
    (currentBlocks (snd (createBlock (sampleEnv "n") python None
                           (sampleWorld threeBlocks)))).
Proof.
  split.
  - apply (createBlock_keeps_positions_distinct (sampleEnv "n") python (Some 1)
             (sampleWorld threeBlocks) (sampleNotebook threeBlocks)).
    + reflexivity.
    + apply (bool_decide_unpack _). vm_compute. exact I.
    + intros _. repeat constructor; simpl; lia.
    + discriminate.
  - apply (createBlock_keeps_positions_distinct (sampleEnv "n") python None
             (sampleWorld threeBlocks) (sampleNotebook threeBlocks)).
    + reflexivity.
    + apply (bool_decide_unpack _). vm_compute. exact I.
    + intros [p Hp]. discriminate Hp.
    + intros _. apply (bool_decide_unpack _). vm_compute. exact I.
Defined.

(** C2, as the claim states it, fails for a call without a position: with
    blocks at positions 1 and 2 the new block gets the block count 2 as its
    position, and two blocks share position 2.  It also fails for a call
    with the position 2^53 on a block at 2^53: adding one to that number
    gives the number back, so the block stays where the new one is put. *)
Lemma createBlock_append_collides :
  let w := sampleWorld [sampleBlock "a" markdown 1; sampleBlock "b" python 2] in
  distinctPositions (currentBlocks w) ∧
  positions (currentBlocks (snd (createBlock (sampleEnv "n") csv None w))) = [1; 2; 2] ∧
  ¬ distinctPositions (currentBlocks (snd (createBlock (sampleEnv "n") csv None w))) ∧
  distinctPositions (currentBlocks (sampleWorld farBlocks)) ∧
  ¬ distinctPositions
      (currentBlocks (snd (createBlock (sampleEnv "n") csv (Some twoTo53)
                             (sampleWorld farBlocks)))).
Proof.
  intros w. subst w. split_and!.
  - apply (bool_decide_unpack _). vm_compute. exact I.
  - vm_compute. reflexivity.
  - apply (bool_decide_unpack _). vm_compute. exact I.
  - apply (bool_decide_unpack _). vm_compute. exact I.
  - apply (bool_decide_unpack _). vm_compute. exact I.
Qed.

(** C3, as the code has it: on a loaded notebook whose blocks sit at safe
    integers (of magnitude below 2^53), [createBlock(type, p)] moves every
    pre-existing block whose position was [p] or more to its position plus one
    (changing nothing else of it), leaves every block whose position was below
    [p] as it was, and the new state holds these blocks and the new block,
    which has position [p]. *)
Theorem createBlock_shifts_from_position env type p w nb :
  notebook w = Some nb →
  safePositions (Notebook.blocks nb) →
  ∃ renumberedBlocks,
    Forall2 (λ before after,
               (p ≤ Block.position before →
                after = bump before ∧
                Block.position after = Block.position before + 1) ∧
               (Block.position before < p → after = before))
            (Notebook.blocks nb) renumberedBlocks ∧
    currentBlocks (snd (createBlock env type (Some p) w))
    ≡ₚ renumberedBlocks ++ [createdBlock env type (Some p) nb] ∧
    Block.position (createdBlock env type (Some p) nb) = p.
Proof.
  intros Hnb Hsafe. exists (shifted p <$> Notebook.blocks nb). split_and!.
  - apply Forall2_fmap_r, Forall_Forall2_diag.
    eapply Forall_impl; [exact Hsafe|]. cbn.
    intros b Hb. split.
    + intros Hge. rewrite (shifted_ge _ _ Hge). split; [done|].
      by apply bump_position.
    + apply shifted_lt.
  - apply (currentBlocks_perm env type (Some p) w nb Hnb).
  - apply createdBlock_position.
Qed.

Lemma createBlock_shifts_from_position_witness :
  ∃ renumberedBlocks,
    Forall2 (λ before after,
               (1 ≤ Block.position before →
                after = bump before ∧
                Block.position after = Block.position before + 1) ∧
               (Block.position before < 1 → after = before))
            threeBlocks renumberedBlocks ∧
    currentBlocks (snd (createBlock (sampleEnv "n") markdown (Some 1)
                          (sampleWorld threeBlocks)))
    ≡ₚ renumberedBlocks
       ++ [createdBlock (sampleEnv "n") markdown (Some 1) (sampleNotebook threeBlocks)] ∧
    Block.position
      (createdBlock (sampleEnv "n") markdown (Some 1) (sampleNotebook threeBlocks)) = 1.
Proof.
  apply (createBlock_shifts_from_position (sampleEnv "n") markdown 1
           (sampleWorld threeBlocks) (sampleNotebook threeBlocks)).
  - reflexivity.
  - repeat constructor; simpl; lia.
Defined.

(** C3, as the claim states it, fails at 2^53: [createBlock(type, 2^53)] on a
    notebook whose block sits at 2^53 leaves that block at 2^53, next to the
    new one, since the number 2^53 + 1 does not exist.  No block of the result
    has the position one greater that the claim promises. *)
Lemma createBlock_increment_lost :
  let w := sampleWorld farBlocks in
  let after :=
    currentBlocks (snd (createBlock (sampleEnv "n") python (Some twoTo53) w)) in
  positions (currentBlocks w) = [twoTo53] ∧
  Block.id <$> after = ["a"; "n"] ∧
  positions after = [twoTo53; twoTo53] ∧
  ¬ (∃ renumberedBlocks,
       Forall2 (λ before after,
                  (twoTo53 ≤ Block.position before →
                   Block.position after = Block.position before + 1) ∧
                  (Block.position before < twoTo53 → after = before))
               farBlocks renumberedBlocks ∧
       after ≡ₚ renumberedBlocks
                ++ [createdBlock (sampleEnv "n") python (Some twoTo53)
                      (sampleNotebook farBlocks)]).
Proof.
  intros w after. subst w after. split_and!; [by vm_compute..|].
  intros (renumberedBlocks & Hall & Hperm).
  apply Forall2_cons_inv_l in Hall as (b & rest & [Hmoved _] & Hrest & ->).
  apply Forall2_nil_inv_l in Hrest as ->.
  assert (Block.position b = twoTo53 + 1) as Hb by (apply Hmoved; by vm_compute).
  assert (Block.position b ∈ [twoTo53; twoTo53]) as Hin.
  { change [twoTo53; twoTo53] with
      (positions (currentBlocks (snd (createBlock (sampleEnv "n") python (Some twoTo53)
                                        (sampleWorld farBlocks))))).
    unfold positions. apply list_elem_of_fmap_2. rewrite Hperm. by left. }
  rewrite Hb in Hin. unfold twoTo53 in Hin.
  rewrite !elem_of_cons, elem_of_nil in Hin. lia.
Qed.

(** ** Sequences of insertions *)

Lemma afterCreate_unloaded w c :
  notebook w = None → afterCreate w c = w.
Proof. intros Hnb. unfold afterCreate. by rewrite createBlock_unloaded. Qed.

Lemma safeFor_S k z : safeFor (S k) z → safeFor k z ∧ safe z.
Proof. unfold safeFor, safe. lia. Qed.

Lemma safeFor_shifted k p b :
  safeFor (S k) (Block.position b) → safeFor k (Block.position (shifted p b)).
Proof.
  intros Hroom. destruct (safeFor_S _ _ Hroom) as [_ Hsafe].
  rewrite shifted_position by done. unfold safeFor in *.
  case_bool_decide; lia.
Qed.

Lemma safeFor_positions k l :
  Forall (safeFor (S k)) (positions l) → safePositions l.
Proof.
  unfold positions, safePositions. rewrite Forall_fmap. intros Hall.
  eapply Forall_impl; [exact Hall|]. intros b Hb. by apply (safeFor_S k).
Qed.

Lemma afterCreate_room w c k p :
  callPosition c = Some p →
  safeFor (S k) p →
  Forall (safeFor (S k)) (positions (currentBlocks w)) →
  Forall (safeFor k) (positions (currentBlocks (afterCreate w c))).
Proof.
  intros Hp Hroom Hall. destruct (notebook w) as [nb|] eqn:Hnb.
  - unfold afterCreate, positions. rewrite Hp.
    rewrite (currentBlocks_perm _ _ _ _ _ Hnb), fmap_app. cbn.
    rewrite createdBlock_position. cbn.
    unfold currentBlocks, positions in Hall. rewrite Hnb, Forall_fmap in Hall.
    apply Forall_app. split.
    + rewrite !Forall_fmap. eapply Forall_impl; [exact Hall|].
      intros b Hb. by apply safeFor_shifted.
    + constructor; [|constructor]. by apply safeFor_S.
  - rewrite (afterCreate_unloaded _ _ Hnb).
    eapply Forall_impl; [exact Hall|]. intros z Hz. by apply safeFor_S.
Qed.

Lemma afterCreate_increasing w c :
  is_Some (callPosition c) →
  safePositions (currentBlocks w) →
  increasing (currentBlocks w) →
  increasing (currentBlocks (afterCreate w c)).
Proof.
  intros [p Hp] Hsafe Hinc. destruct (notebook w) as [nb|] eqn:Hnb.
  - unfold currentBlocks in Hsafe, Hinc. rewrite Hnb in Hsafe, Hinc.
    unfold afterCreate, increasing. rewrite Hp.
    apply le_sorted_distinct.
    + apply (created_ordered _ _ _ _ _ Hnb).
    + apply (created_distinct _ _ _ _ _ Hnb); [done| |done].
      by apply lt_sorted_distinct.
  - by rewrite afterCreate_unloaded.
Qed.

Lemma createBlocks_increasing calls w :
  Forall (λ c, ∃ p, callPosition c = Some p ∧ safeFor (length calls) p) calls →
  Forall (safeFor (length calls)) (positions (currentBlocks w)) →
  increasing (currentBlocks w) →
  increasing (currentBlocks (createBlocks calls w)).
Proof.
  unfold createBlocks. revert w.
  induction calls as [|c calls IH]; intros w Hcalls Hroom Hinc; cbn; [done|].
  cbn [length] in *. apply Forall_cons in Hcalls as [(p & Hp & Hproom) Hcalls].
  apply IH.
  - eapply Forall_impl; [exact Hcalls|]. cbn.
    intros c' (p' & Hp' & Hroom'). exists p'. split; [done|].
    by apply safeFor_S.
  - by apply (afterCreate_room w c _ p).
  - apply afterCreate_increasing; [by eexists| |done].
    by apply (safeFor_positions (length calls)).
Qed.

(** C4, as the code has it: from a notebook whose blocks are in strictly
    increasing position order (the empty notebook is one), any sequence of
    [createBlock] calls that all give a position leaves blocks whose
    positions are pairwise distinct and strictly increasing once sorted by
    position (the list is in fact kept in that order), provided the
    positions present and given are integers above -2^53 that stay below
    2^53 when increased once per call of the sequence. *)
Theorem createBlocks_positions_unique_increasing calls w :
  increasing (currentBlocks w) →
  Forall (safeFor (length calls)) (positions (currentBlocks w)) →
  Forall (λ c, ∃ p, callPosition c = Some p ∧ safeFor (length calls) p) calls →
  let after := currentBlocks (createBlocks calls w) in
  distinctPositions after ∧
  increasing (sort byPosition after) ∧
  sort byPosition after = after.
Proof.
  intros Hinc Hroom Hcalls after.
  assert (increasing after) as Hafter by by apply createBlocks_increasing.
  assert (sort byPosition after = after) as Hsorted
    by by apply sort_of_ordered, lt_sorted_le.
  split_and!; [by apply lt_sorted_distinct| by rewrite Hsorted | done].
Qed.

Lemma createBlocks_positions_unique_increasing_witness :
  let after :=
    currentBlocks
      (createBlocks [mkCall (sampleEnv "x") markdown (Some 0);
                     mkCall (offlineEnv "y") python (Some 0);
                     mkCall (sampleEnv "z") csv (Some 5)]
                    (sampleWorld [sampleBlock "a" markdown 4])) in
  distinctPositions after ∧
  increasing (sort byPosition after) ∧
  sort byPosition after = after.
Proof.
  apply (createBlocks_positions_unique_increasing
           [mkCall (sampleEnv "x") markdown (Some 0);
            mkCall (offlineEnv "y") python (Some 0);
            mkCall (sampleEnv "z") csv (Some 5)]
           (sampleWorld [sampleBlock "a" markdown 4])).
  - apply (bool_decide_unpack _). vm_compute. exact I.
  - repeat constructor; simpl; lia.
  - repeat constructor; eexists; (split; [reflexivity|]); split; simpl; lia.
Defined.

(** C4, as the claim states it, fails at 2^53: from the empty notebook, two
    calls [createBlock(type, 2^53)] leave two blocks at 2^53, the first one
    not having moved when the second was put at its position. *)
Lemma createBlocks_collide_at_twoTo53 :
  let calls := [mkCall (sampleEnv "x") markdown (Some twoTo53);
                mkCall (sampleEnv "y") python (Some twoTo53)] in
  let after := currentBlocks (createBlocks calls (sampleWorld [])) in
  increasing (currentBlocks (sampleWorld [])) ∧
  Forall (λ c, is_Some (callPosition c)) calls ∧
  Block.id <$> after = ["x"; "y"] ∧
  positions after = [twoTo53; twoTo53] ∧
  ¬ distinctPositions after ∧
  ¬ increasing (sort byPosition after).
Proof.
  intros calls after. subst calls after. split_and!.
  - constructor.
  - repeat constructor; by eexists.
  - by vm_compute.
  - by vm_compute.
  - apply (bool_decide_unpack _). vm_compute. exact I.
  - apply (bool_decide_unpack _). vm_compute. exact I.
Qed.

(** ** Failure and success of [createBlock] *)

(** C6: [createBlock] throws, with the message 'No notebook loaded', exactly
    when no notebook is loaded; on a loaded notebook it returns the identifier
    of the new block, which is then one of the notebook's blocks. *)
Theorem createBlock_throws_iff_unloaded env type position w :
  (fst (createBlock env type position w) = Throws (mkError "No notebook loaded")
   ↔ notebook w = None) ∧
  ((∃ e, fst (createBlock env type position w) = Throws e) ↔ notebook w = None) ∧
  (∀ nb, notebook w = Some nb →
     fst (createBlock env type position w) = Returns (uuid env) ∧
     createdBlock env type position nb
       ∈ currentBlocks (snd (createBlock env type position w)) ∧
     Block.id (createdBlock env type position nb) = uuid env).
Proof.
  destruct (notebook w) as [nb|] eqn:Hnb.
  - split_and!.
    + rewrite (createBlock_loaded _ _ _ _ _ Hnb). cbn. split; discriminate.
    + rewrite (createBlock_loaded _ _ _ _ _ Hnb). cbn.
      split; [intros [e He]|]; discriminate.
    + intros nb' [= <-]. split_and!.
      * by rewrite (createBlock_loaded _ _ _ _ _ Hnb).
      * rewrite (currentBlocks_perm _ _ _ _ _ Hnb).
        apply elem_of_app. right. by left.
      * apply createdBlock_id.
  - rewrite (createBlock_unloaded _ _ _ _ Hnb). cbn. split_and!.
    + done.
    + split; [done|]. intros _. by eexists.
    + discriminate.
Qed.

Lemma createBlock_throws_iff_unloaded_witness :
  fst (createBlock (sampleEnv "n") csv None (sampleWorld threeBlocks)) = Returns "n" ∧
  fst (createBlock (sampleEnv "n") csv None emptyWorld)
  = Throws (mkError "No notebook loaded").
Proof.
  split.
  - destruct (createBlock_throws_iff_unloaded (sampleEnv "n") csv None
                (sampleWorld threeBlocks)) as (_ & _ & Hloaded).
    apply (Hloaded (sampleNotebook threeBlocks)). reflexivity.
  - destruct (createBlock_throws_iff_unloaded (sampleEnv "n") csv None emptyWorld)
      as (Hthrows & _ & _).
    apply Hthrows. reflexivity.
Defined.

(** C8: on a loaded notebook with identifier [nid], the new block's file path
    is [nid + '/' + newId + ext], with [ext] '.md', '.py' or '.csv' after the
    type, and the file list becomes the former one followed by the single
    descriptor of that path and type. *)
Theorem createBlock_file_descriptor env type position w nb :
  notebook w = Some nb →
  let filePath := Notebook.id nb +:+ "/" +:+ uuid env +:+ dottedExtension type in
  ∃ nb',
    notebook (snd (createBlock env type position w)) = Some nb' ∧
    Notebook.files nb' = Notebook.files nb ++ [FileDescriptor.mk filePath type] ∧
    createdBlock env type position nb ∈ Notebook.blocks nb' ∧
    Block.filePath (createdBlock env type position nb) = filePath.
Proof.
  intros Hnb filePath.
  assert (createdPath env type nb = filePath) as Hpath.
  { unfold createdPath, filePathOf, filePath. by destruct type. }
  rewrite (createBlock_loaded _ _ _ _ _ Hnb). cbn.
  eexists. split; [done|]. cbn. rewrite Hpath. split_and!; [done| |].
  - rewrite (sort_perm byPosition). apply elem_of_app. right. by left.
  - by rewrite createdBlock_filePath.
Qed.

Lemma createBlock_file_descriptor_witness :
  ∃ nb',
    notebook (snd (createBlock (sampleEnv "n") python None (sampleWorld threeBlocks)))
    = Some nb' ∧
    Notebook.files nb'
    = Notebook.files (sampleNotebook threeBlocks)
      ++ [FileDescriptor.mk "nb/n.py" python] ∧
    createdBlock (sampleEnv "n") python None (sampleNotebook threeBlocks)
      ∈ Notebook.blocks nb' ∧
    Block.filePath (createdBlock (sampleEnv "n") python None (sampleNotebook threeBlocks))
    = "nb/n.py".
Proof.
  apply (createBlock_file_descriptor (sampleEnv "n") python None
           (sampleWorld threeBlocks) (sampleNotebook threeBlocks)).
  reflexivity.
Defined.

(** C9: on a loaded notebook, however the file-creation request settles,
    [createBlock] returns the new identifier, and the notebook it has
    committed, with the new block inserted and the descriptor appended, is
    the one committed when the request succeeds; the request is issued in
    both cases and a failure only reaches the console. *)
Theorem createBlock_ignores_fetch_failure now uuid settled type position w nb :
  notebook w = Some nb →
  let env := mkEnv now uuid settled in
  let after := snd (createBlock env type position w) in
  fst (createBlock env type position w) = Returns uuid ∧
  notebook after
  = notebook (snd (createBlock (mkEnv now uuid (Returns tt)) type position w)) ∧
  (∃ nb',
     notebook after = Some nb' ∧
     createdBlock env type position nb ∈ Notebook.blocks nb' ∧
     FileDescriptor.mk (createdPath env type nb) type ∈ Notebook.files nb') ∧
  network after = network w ++ [mkRequest "/api/files" (createdPath env type nb) EmptyString] ∧
  console after = console w ++ createLog env.
Proof.
  intros Hnb env after. subst after.
  rewrite !(createBlock_loaded _ _ _ _ _ Hnb). cbn.
  split_and!; try done.
  eexists. split; [done|]. cbn. split.
  - rewrite (sort_perm byPosition). apply elem_of_app. right. by left.
  - apply elem_of_app. right. by left.
Qed.

Lemma createBlock_ignores_fetch_failure_witness :
  fst (createBlock (offlineEnv "n") markdown (Some 1) (sampleWorld threeBlocks))
  = Returns "n" ∧
  notebook (snd (createBlock (offlineEnv "n") markdown (Some 1) (sampleWorld threeBlocks)))
  = notebook (snd (createBlock (sampleEnv "n") markdown (Some 1) (sampleWorld threeBlocks))).
Proof.
  pose proof (createBlock_ignores_fetch_failure
                "2024-06-01T12:00:00.000Z" "n" (Throws (mkError "Failed to fetch"))
                markdown (Some 1) (sampleWorld threeBlocks)
                (sampleNotebook threeBlocks) eq_refl) as (Hret & Hstate & _).
  split; [exact Hret | exact Hstate].
Defined.

(** ** The file endpoint *)

Lemma GET_run {Store} (service : outcome (Route.StorageService Store)) params server :
  Route.GET service params server =
  match service with
  | Returns storageService =>
      match Route.getFile storageService (Route.joined params) (Route.storage server) with
      | (Returns content, store) =>
          (Returns (Route.mkResponse 200 (Route.ContentBody content)),
           Route.mkServer store (Route.serverConsole server))
      | (Throws error, store) =>
          (Returns (Route.mkResponse 500 (Route.ErrorBody "Failed to fetch file")),
           Route.mkServer store
             (Route.serverConsole server
              ++ [mkLog ("Error fetching file " +:+ Route.joined params +:+ ":") error]))
      end
  | Throws error =>
      (Returns (Route.mkResponse 500 (Route.ErrorBody "Failed to fetch file")),
       Route.mkServer (Route.storage server)
         (Route.serverConsole server
          ++ [mkLog ("Error fetching file " +:+ Route.joined params +:+ ":") error]))
  end.
Proof.
  unfold Route.GET, tryCatch, bind, await, Route.onStorage.
  destruct service as [storageService|error]; [|done].
  by destruct (Route.getFile _ _ _) as [[content|error] store].
Qed.

Lemma DELETE_run {Store} (service : outcome (Route.StorageService Store)) params server :
  Route.DELETE service params server =
  match service with
  | Returns storageService =>
      match Route.deleteFile storageService (Route.joined params) (Route.storage server) with
      | (Returns _, store) =>
          (Returns (Route.mkResponse 200 (Route.SuccessBody true)),
           Route.mkServer store (Route.serverConsole server))
      | (Throws error, store) =>
          (Returns (Route.mkResponse 500 (Route.ErrorBody "Failed to delete file")),
           Route.mkServer store
             (Route.serverConsole server
              ++ [mkLog ("Error deleting file " +:+ Route.joined params +:+ ":") error]))
      end
  | Throws error =>
      (Returns (Route.mkResponse 500 (Route.ErrorBody "Failed to delete file")),
       Route.mkServer (Route.storage server)
         (Route.serverConsole server
          ++ [mkLog ("Error deleting file " +:+ Route.joined params +:+ ":") error]))
  end.
Proof.
  unfold Route.DELETE, tryCatch, bind, await, Route.onStorage.
  destruct service as [storageService|error]; [|done].
  by destruct (Route.deleteFile _ _ _) as [[[]|error] store].
Qed.

(** C5: for every path, when the storage call succeeds [GET] answers with the
    body [{ content }] and [DELETE] with [{ success: true }]; when the storage
    collaborator fails, in handing out the service or in the call itself, the
    handler does not throw: it answers with status 500 and the body
    [{ error: 'Failed to fetch file' }], respectively
    [{ error: 'Failed to delete file' }]. *)
Theorem file_endpoint_responses {Store}
    (service : outcome (Route.StorageService Store)) params server :
  (∀ storageService content store,
     service = Returns storageService →
     Route.getFile storageService (Route.joined params) (Route.storage server)
     = (Returns content, store) →
     fst (Route.GET service params server)
     = Returns (Route.mkResponse 200 (Route.ContentBody content))) ∧
  (∀ storageService store,
     service = Returns storageService →
     Route.deleteFile storageService (Route.joined params) (Route.storage server)
     = (Returns tt, store) →
     fst (Route.DELETE service params server)
     = Returns (Route.mkResponse 200 (Route.SuccessBody true))) ∧
  ((∃ error, service = Throws error) ∨
   (∃ storageService error store,
      service = Returns storageService ∧
      Route.getFile storageService (Route.joined params) (Route.storage server)
      = (Throws error, store)) →
   fst (Route.GET service params server)
   = Returns (Route.mkResponse 500 (Route.ErrorBody "Failed to fetch file"))) ∧
  ((∃ error, service = Throws error) ∨
   (∃ storageService error store,
      service = Returns storageService ∧
      Route.deleteFile storageService (Route.joined params) (Route.storage server)
      = (Throws error, store)) →
   fst (Route.DELETE service params server)
   = Returns (Route.mkResponse 500 (Route.ErrorBody "Failed to delete file"))).
Proof.
  rewrite GET_run, DELETE_run. split_and!.
  - intros storageService content store -> Hget. by rewrite Hget.
  - intros storageService store -> Hdelete. by rewrite Hdelete.
  - intros [[error ->]|(storageService & error & store & -> & Hget)]; [done|].
    by rewrite Hget.
  - intros [[error ->]|(storageService & error & store & -> & Hdelete)]; [done|].
    by rewrite Hdelete.
Qed.

Lemma file_endpoint_responses_witness :
  fst (Route.GET (Returns sampleStorage) (Route.mkParams ["a"; "b.txt"]) sampleServer)
  = Returns (Route.mkResponse 200 (Route.ContentBody "hello")) ∧
  fst (Route.DELETE (Returns sampleStorage) (Route.mkParams ["a"; "b.txt"]) sampleServer)
  = Returns (Route.mkResponse 200 (Route.SuccessBody true)) ∧
  fst (Route.GET (Returns sampleStorage) (Route.mkParams ["a"; "c.txt"]) sampleServer)
  = Returns (Route.mkResponse 500 (Route.ErrorBody "Failed to fetch file")) ∧
  fst (Route.DELETE (Throws (mkError "storage unavailable"))
         (Route.mkParams ["a"; "b.txt"]) sampleServer)
  = Returns (Route.mkResponse 500 (Route.ErrorBody "Failed to delete file")).
Proof.
  split; [|split; [|split]].
  - destruct (file_endpoint_responses (Returns sampleStorage)
                (Route.mkParams ["a"; "b.txt"]) sampleServer) as (Hget & _).
    apply (Hget sampleStorage "hello" [("a/b.txt", "hello")]); reflexivity.
  - destruct (file_endpoint_responses (Returns sampleStorage)
                (Route.mkParams ["a"; "b.txt"]) sampleServer) as (_ & Hdelete & _).
    apply (Hdelete sampleStorage []); reflexivity.
  - destruct (file_endpoint_responses (Returns sampleStorage)
                (Route.mkParams ["a"; "c.txt"]) sampleServer) as (_ & _ & Hget & _).
    apply Hget. right.
    exists sampleStorage, (mkError "ENOENT"), [("a/b.txt", "hello")].
    split; reflexivity.
  - destruct (file_endpoint_responses (Throws (mkError "storage unavailable"))
                (Route.mkParams ["a"; "b.txt"]) sampleServer) as (_ & _ & _ & Hdelete).
    apply Hdelete. left. eexists. reflexivity.
Defined.

(** ** The examples of the specification *)

Example insert_in_the_middle :
  let after :=
    currentBlocks (snd (createBlock (sampleEnv "n") markdown (Some 1)
                          (sampleWorld threeBlocks))) in
  Block.id <$> after = ["a"; "n"; "b"; "c"] ∧ positions after = [0; 1; 2; 3].
Proof. intros after. subst after. split; vm_compute; reflexivity. Qed.

Example append_at_the_end :
  let after :=
    currentBlocks (snd (createBlock (sampleEnv "n") csv None
                          (sampleWorld threeBlocks))) in
  Block.id <$> after = ["a"; "b"; "c"; "n"] ∧ positions after = [0; 1; 2; 3].
Proof. intros after. subst after. split; vm_compute; reflexivity. Qed.

Example update_python_output :
  currentBlocks (snd (updateBlock "b" outputPayload (sampleWorld threeBlocks)))
  = [sampleBlock "a" markdown 0;
     Block.mk "b" python "nb/b.py" 1 "2024-01-01T00:00:00.000Z"
       "2024-01-01T00:00:00.000Z" None (Some "done") (Some false);
     sampleBlock "c" csv 2].
Proof. vm_compute. reflexivity. Qed.

Example get_when_storage_throws :
  Route.GET
    (Returns (Route.mkStorageService
                (λ _ store, (Throws (mkError "disk failure"), store))
                (λ _ store, (Throws (mkError "disk failure"), store))))
    (Route.mkParams ["a"; "b.txt"]) (Route.mkServer tt [])
  = (Returns (Route.mkResponse 500 (Route.ErrorBody "Failed to fetch file")),
     Route.mkServer tt
       [mkLog "Error fetching file a/b.txt:" (mkError "disk failure")]).
Proof. vm_compute. reflexivity. Qed.

(** * Further properties of the provider *)

(** ** [updateBlock] in place *)

Lemma spread_empty block : spread block Partial.empty = block.
Proof. by destruct block. Qed.

Lemma spread_spread block first second :
  spread (spread block first) second = spread block (mergePayload first second).
Proof.
  destruct block, first as [i t f p c u e o x], second as [i' t' f' p' c' u' e' o' x'].
  unfold spread, mergePayload; cbn.
  by destruct i', t', f', p', c', u', e', o', x'.
Qed.

Lemma mergePayload_same updates : mergePayload updates updates = updates.
Proof. by destruct updates as [[] [] [] [] [] [] [] [] []]. Qed.

Lemma currentBlocks_updated id updates w :
  currentBlocks (snd (updateBlock id updates w))
  = updateOne id updates <$> currentBlocks w.
Proof.
  unfold currentBlocks. destruct (notebook w) as [nb|] eqn:Hnb.
  - by rewrite (updateBlock_loaded _ _ _ _ Hnb).
  - rewrite (updateBlock_unloaded _ _ _ Hnb). cbn. by rewrite Hnb.
Qed.

(** [updateBlock] rewrites the notebook in place: the notebook keeps its
    identifier, its files and the number of its blocks, the selection is
    kept, and at every index a block with another identifier is the block
    that was there, while every block carrying the identifier, also when
    several do, is replaced by its merge with the payload. *)
Theorem updateBlock_in_place id updates w nb :
  notebook w = Some nb →
  let after := snd (updateBlock id updates w) in
  (∃ nb', notebook after = Some nb' ∧
          Notebook.id nb' = Notebook.id nb ∧
          Notebook.files nb' = Notebook.files nb ∧
          length (Notebook.blocks nb') = length (Notebook.blocks nb)) ∧
  (∀ i block, Notebook.blocks nb !! i = Some block →
     currentBlocks after !! i
     = Some (if decide (Block.id block = id) then spread block updates else block)) ∧
  selectedBlockId after = selectedBlockId w.
Proof.
  intros Hnb after. subst after. split_and!.
  - rewrite (updateBlock_loaded _ _ _ _ Hnb). cbn.
    eexists. split; [done|]. cbn. by rewrite length_fmap.
  - intros i block Hi. rewrite currentBlocks_updated.
    unfold currentBlocks. rewrite Hnb, list_lookup_fmap, Hi. cbn. f_equal.
    case_decide as Hid.
    + subst id. apply updateOne_match.
    + by apply updateOne_other.
  - by rewrite (updateBlock_loaded _ _ _ _ Hnb).
Qed.

Lemma updateBlock_in_place_witness :
  currentBlocks (snd (updateBlock "b" outputPayload (sampleWorld threeBlocks))) !! 0%nat
  = Some (sampleBlock "a" markdown 0) ∧
  currentBlocks (snd (updateBlock "b" outputPayload (sampleWorld threeBlocks))) !! 1%nat
  = Some (spread (sampleBlock "b" python 1) outputPayload).
Proof.
  destruct (updateBlock_in_place "b" outputPayload (sampleWorld threeBlocks)
              (sampleNotebook threeBlocks) eq_refl) as (_ & Hat & _).
  split.
  - apply (Hat 0%nat (sampleBlock "a" markdown 0)). reflexivity.
  - apply (Hat 1%nat (sampleBlock "b" python 1)). reflexivity.
Defined.

(** A payload without a [type] property leaves the variant tag of every
    block as it was. *)
Theorem updateBlock_keeps_type_without_tag id updates w :
  Partial.type updates = None →
  Block.type <$> currentBlocks (snd (updateBlock id updates w))
  = Block.type <$> currentBlocks w.
Proof.
  intros Hnone. rewrite currentBlocks_updated, <- list_fmap_compose.
  apply list_fmap_ext. intros i block _. cbn. by apply updateOne_type.
Qed.

Lemma updateBlock_keeps_type_without_tag_witness :
  Block.type <$> currentBlocks (snd (updateBlock "b" outputPayload (sampleWorld threeBlocks)))
  = Block.type <$> currentBlocks (sampleWorld threeBlocks).
Proof.
  apply (updateBlock_keeps_type_without_tag "b" outputPayload (sampleWorld threeBlocks)).
  reflexivity.
Defined.

Lemma updateOne_position id updates block :
  Partial.position updates = None →
  Block.position (updateOne id updates block) = Block.position block.
Proof.
  intros Hnone. unfold updateOne.
  case_bool_decide; [done|].
  destruct (Block.type block) eqn:Htype; cbn; by rewrite Hnone.
Qed.

(** A payload without a [position] property leaves every position as it was,
    so there are as many blocks at each position as before, and in the same
    list order. *)
Theorem updateBlock_keeps_positions id updates w :
  Partial.position updates = None →
  positions (currentBlocks (snd (updateBlock id updates w)))
  = positions (currentBlocks w).
Proof.
  intros Hnone. unfold positions.
  rewrite currentBlocks_updated, <- list_fmap_compose.
  apply list_fmap_ext. intros i block _. cbn. by apply updateOne_position.
Qed.

Lemma updateBlock_keeps_positions_witness :
  positions (currentBlocks (snd (updateBlock "a" retagPayload (sampleWorld sparseBlocks))))
  = positions (currentBlocks (sampleWorld sparseBlocks)).
Proof.
  apply (updateBlock_keeps_positions "a" retagPayload (sampleWorld sparseBlocks)).
  reflexivity.
Defined.

Lemma updateOne_empty id block : updateOne id Partial.empty block = block.
Proof.
  unfold updateOne. case_bool_decide; [done|].
  destruct (Block.type block); apply spread_empty.
Qed.

(** The payload [{}] changes nothing, whether the identifier is known or
    not and whether a notebook is loaded or not. *)
Theorem updateBlock_empty_payload id w :
  updateBlock id Partial.empty w = (Returns tt, w).
Proof.
  destruct (notebook w) as [nb|] eqn:Hnb.
  - rewrite (updateBlock_loaded _ _ _ _ Hnb).
    rewrite (list_fmap_ext (updateOne id Partial.empty) (λ b, b) (Notebook.blocks nb))
      by (intros; apply updateOne_empty).
    rewrite list_fmap_id. destruct w as [current sel con net]; cbn in *.
    subst current. by destruct nb.
  - by apply updateBlock_unloaded.
Qed.

Lemma updateOne_twice id first second block :
  Partial.id first = None →
  updateOne id second (updateOne id first block)
  = updateOne id (mergePayload first second) block.
Proof.
  intros Hid. unfold updateOne at 2 3.
  case_bool_decide as Hne.
  - by apply updateOne_other.
  - assert (Block.id block = id) as <- by (by destruct (decide (Block.id block = id))).
    assert (∀ b : Block.t, match Block.type block with
                           | markdown => b | python => b | csv => b end = b) as Hsame
      by (intros; by destruct (Block.type block)).
    rewrite !Hsame.
    assert (Block.id (spread block first) = Block.id block) as Hkept
      by (cbn; by rewrite Hid).
    rewrite <- Hkept at 1. rewrite updateOne_match. apply spread_spread.
Qed.

(** Two updates of the same identifier, the second one issued from the
    render that shows the state committed by the first (so that it reads that
    state, not the one the first call read), and the first of which does not
    rename the block, amount to one update with the two payloads merged, the
    second one winning where both give a property. *)
Theorem updateBlock_last_write_wins id first second w :
  Partial.id first = None →
  snd (updateBlock id second (snd (updateBlock id first w)))
  = snd (updateBlock id (mergePayload first second) w).
Proof.
  intros Hid. destruct (notebook w) as [nb|] eqn:Hnb.
  - rewrite (updateBlock_loaded id first _ _ Hnb). cbn [snd].
    erewrite (updateBlock_loaded id second) by reflexivity.
    rewrite (updateBlock_loaded _ _ _ _ Hnb). cbn.
    rewrite <- list_fmap_compose.
    rewrite (list_fmap_ext (updateOne id second ∘ updateOne id first)
               (updateOne id (mergePayload first second)) (Notebook.blocks nb));
      [done|].
    intros i block _. cbn. by apply updateOne_twice.
  - rewrite (updateBlock_unloaded id first _ Hnb). cbn [snd].
    by rewrite !(updateBlock_unloaded _ _ _ Hnb).
Qed.

Lemma updateBlock_last_write_wins_witness :
  snd (updateBlock "b" outputPayload
         (snd (updateBlock "b" editPayload (sampleWorld threeBlocks))))
  = snd (updateBlock "b" (mergePayload editPayload outputPayload)
           (sampleWorld threeBlocks)).
Proof.
  apply (updateBlock_last_write_wins "b" editPayload outputPayload
           (sampleWorld threeBlocks)).
  reflexivity.
Defined.

Lemma updateOne_idempotent id updates block :
  updateOne id updates (updateOne id updates block) = updateOne id updates block.
Proof.
  destruct (decide (Block.id block = id)) as [<-|Hne].
  - rewrite updateOne_match.
    destruct (decide (Block.id (spread block updates) = Block.id block)) as [Hkept|Hrenamed].
    + rewrite <- Hkept at 1. rewrite updateOne_match, spread_spread.
      by rewrite mergePayload_same.
    + by apply updateOne_other.
  - by rewrite !(updateOne_other _ _ _ Hne).
Qed.

(** Repeating an update changes nothing more, also when the payload renames
    the block. *)
Theorem updateBlock_idempotent id updates w :
  snd (updateBlock id updates (snd (updateBlock id updates w)))
  = snd (updateBlock id updates w).
Proof.
  destruct (notebook w) as [nb|] eqn:Hnb.
  - rewrite (updateBlock_loaded _ _ _ _ Hnb). cbn [snd].
    erewrite updateBlock_loaded by reflexivity. cbn.
    rewrite <- list_fmap_compose.
    rewrite (list_fmap_ext (updateOne id updates ∘ updateOne id updates)
               (updateOne id updates) (Notebook.blocks nb)); [done|].
    intros i block _. cbn. apply updateOne_idempotent.
  - rewrite (updateBlock_unloaded _ _ _ Hnb). cbn [snd].
    by rewrite (updateBlock_unloaded _ _ _ Hnb).
Qed.

(** ** The selection *)

(** [selectBlock] stores whatever identifier it is given, known to the
    notebook or not, and touches nothing else; [updateBlock] and
    [createBlock] never touch the selection, a new block is not selected.
    So selecting before or after either of them gives the same world, and
    the same result of [createBlock]. *)
Theorem selectBlock_independent selected id updates env type position w :
  selectBlock selected w
  = (Returns tt, mkWorld (notebook w) selected (console w) (network w)) ∧
  selectedBlockId (snd (updateBlock id updates w)) = selectedBlockId w ∧
  selectedBlockId (snd (createBlock env type position w)) = selectedBlockId w ∧
  snd (selectBlock selected (snd (updateBlock id updates w)))
  = snd (updateBlock id updates (snd (selectBlock selected w))) ∧
  createBlock env type position (snd (selectBlock selected w))
  = (fst (createBlock env type position w),
     snd (selectBlock selected (snd (createBlock env type position w)))).
Proof.
  split; [done|]. destruct (notebook w) as [nb|] eqn:Hnb.
  - rewrite (updateBlock_loaded _ _ _ _ Hnb), (createBlock_loaded _ _ _ _ _ Hnb).
    erewrite (updateBlock_loaded id updates (snd _)) by exact Hnb.
    erewrite (createBlock_loaded env type position (snd _)) by exact Hnb.
    done.
  - rewrite (updateBlock_unloaded _ _ _ Hnb), (createBlock_unloaded _ _ _ _ Hnb).
    rewrite (updateBlock_unloaded id updates (snd _)) by exact Hnb.
    rewrite (createBlock_unloaded env type position (snd _)) by exact Hnb.
    done.
Qed.

(** ** More on [createBlock] *)

(** On a loaded notebook [createBlock] adds exactly one block and one file
    descriptor, and keeps the notebook's identifier. *)
Theorem createBlock_adds_one env type position w nb :
  notebook w = Some nb →
  ∃ nb',
    notebook (snd (createBlock env type position w)) = Some nb' ∧
    Notebook.id nb' = Notebook.id nb ∧
    length (Notebook.blocks nb') = S (length (Notebook.blocks nb)) ∧
    length (Notebook.files nb') = S (length (Notebook.files nb)).
Proof.
  intros Hnb. rewrite (createBlock_loaded _ _ _ _ _ Hnb). cbn.
  eexists. split; [done|]. cbn. split_and!; [done| |].
  - rewrite (sort_perm byPosition), length_app, length_fmap. cbn. lia.
  - rewrite length_app. cbn. lia.
Qed.

Lemma createBlock_adds_one_witness :
  ∃ nb',
    notebook (snd (createBlock (offlineEnv "n") csv (Some 7) (sampleWorld threeBlocks)))
    = Some nb' ∧
    Notebook.id nb' = "nb" ∧
    length (Notebook.blocks nb') = 4%nat ∧
    length (Notebook.files nb') = 4%nat.
Proof.
  apply (createBlock_adds_one (offlineEnv "n") csv (Some 7)
           (sampleWorld threeBlocks) (sampleNotebook threeBlocks)).
  reflexivity.
Defined.

(** Whatever the order of the blocks it finds, [createBlock] leaves them in
    non-decreasing position order, so sorting them again changes nothing. *)
Theorem createBlock_result_ordered env type position w nb :
  notebook w = Some nb →
  let after := currentBlocks (snd (createBlock env type position w)) in
  ordered after ∧ sort byPosition after = after.
Proof.
  intros Hnb after.
  assert (ordered after) as Hordered by apply (created_ordered _ _ _ _ _ Hnb).
  split; [done|]. by apply sort_of_ordered.
Qed.

Lemma createBlock_result_ordered_witness :
  let after :=
    currentBlocks (snd (createBlock (sampleEnv "n") python None
                          (sampleWorld (reverse threeBlocks)))) in
  ordered after ∧ sort byPosition after = after.
Proof.
  apply (createBlock_result_ordered (sampleEnv "n") python None
           (sampleWorld (reverse threeBlocks)) (sampleNotebook (reverse threeBlocks))).
  reflexivity.
Defined.

Lemma insertLast_end x l :
  (∀ b, b ∈ l → Block.position b ≤ Block.position x) →
  insertLast x l = l ++ [x].
Proof.
  induction l as [|y l IH]; intros Hle; cbn; [done|].
  unfold byPosition. rewrite bool_decide_eq_true_2.
  - rewrite IH; [done|]. intros b Hb. apply Hle. by right.
  - pose proof (Hle y ltac:(left)). lia.
Qed.

Lemma insertLast_front x l :
  (∀ b, b ∈ l → Block.position x < Block.position b) →
  insertLast x l = x :: l.
Proof.
  destruct l as [|y l]; intros Hlt; cbn; [done|].
  unfold byPosition. rewrite bool_decide_eq_false_2; [done|].
  pose proof (Hlt y ltac:(left)). lia.
Qed.

Lemma currentBlocks_sorted env type position w nb :
  notebook w = Some nb →
  currentBlocks (snd (createBlock env type position w))
  = sort byPosition ((renumbered position <$> Notebook.blocks nb)
                     ++ [createdBlock env type position nb]).
Proof. intros Hnb. by rewrite (createBlock_loaded _ _ _ _ _ Hnb). Qed.

(** When the blocks are in position order and the target position lies
    behind all of them (strictly when it is given, possibly on the last one
    when it is the block count), nothing is renumbered and the new block
    goes last: the list is the former one followed by the new block.  A
    given position far behind the end is kept as it is, leaving a gap. *)
Theorem createBlock_at_end env type position w nb :
  notebook w = Some nb →
  ordered (Notebook.blocks nb) →
  (∀ b, b ∈ Notebook.blocks nb →
     match position with
     | Some p => Block.position b < p
     | None => Block.position b ≤ Z.of_nat (length (Notebook.blocks nb))
     end) →
  currentBlocks (snd (createBlock env type position w))
  = Notebook.blocks nb ++ [createdBlock env type position nb].
Proof.
  intros Hnb Hordered Hbehind.
  rewrite (currentBlocks_sorted _ _ _ _ _ Hnb).
  assert (renumbered position <$> Notebook.blocks nb = Notebook.blocks nb) as ->.
  { destruct position as [p|]; cbn; [|by rewrite list_fmap_id].
    rewrite <- (list_fmap_id (Notebook.blocks nb)) at 2.
    apply list_fmap_ext. intros i b Hb. cbn.
    apply shifted_lt, Hbehind. by eapply list_elem_of_lookup_2. }
  rewrite sort_snoc, (sort_of_ordered _ Hordered).
  apply insertLast_end. intros b Hb. rewrite createdBlock_position.
  specialize (Hbehind b Hb). destruct position; cbn in *; lia.
Qed.

Lemma createBlock_at_end_witness :
  currentBlocks (snd (createBlock (sampleEnv "n") csv (Some 40) (sampleWorld threeBlocks)))
  = threeBlocks ++ [createdBlock (sampleEnv "n") csv (Some 40) (sampleNotebook threeBlocks)].
Proof.
  apply (createBlock_at_end (sampleEnv "n") csv (Some 40)
           (sampleWorld threeBlocks) (sampleNotebook threeBlocks)).
  - reflexivity.
  - apply (bool_decide_unpack _). vm_compute. exact I.
  - intros b Hb. apply list_elem_of_In in Hb. simpl in Hb.
    destruct Hb as [<-|[<-|[<-|[]]]]; reflexivity.
Defined.

(** When the blocks are in position order, at safe integers (of magnitude
    below 2^53), and the given position is at or before all of them, every
    block moves up by one and the new block comes first; this holds for
    negative positions as well. *)
Theorem createBlock_at_front env type p w nb :
  notebook w = Some nb →
  ordered (Notebook.blocks nb) →
  safePositions (Notebook.blocks nb) →
  (∀ b, b ∈ Notebook.blocks nb → p ≤ Block.position b) →
  currentBlocks (snd (createBlock env type (Some p) w))
  = createdBlock env type (Some p) nb :: (bump <$> Notebook.blocks nb) ∧
  positions (bump <$> Notebook.blocks nb)
  = Z.succ <$> positions (Notebook.blocks nb).
Proof.
  intros Hnb Hordered Hsafe Hbefore. split; cycle 1.
  { unfold positions. rewrite <- !list_fmap_compose.
    apply list_fmap_ext. intros i b Hb. cbn [compose].
    rewrite bump_position; [lia|].
    unfold safePositions in Hsafe. rewrite Forall_forall in Hsafe.
    apply Hsafe. by eapply list_elem_of_lookup_2. }
  rewrite (currentBlocks_created _ _ _ _ _ Hnb (λ _, Hsafe)),
    (sort_of_ordered _ Hordered).
  change (renumbered (Some p)) with (shifted p).
  assert (shifted p <$> Notebook.blocks nb = bump <$> Notebook.blocks nb) as ->.
  { apply list_fmap_ext. intros i b Hb.
    apply shifted_ge, Hbefore. by eapply list_elem_of_lookup_2. }
  apply insertLast_front. intros b' Hb'.
  apply list_elem_of_fmap in Hb' as (b & -> & Hb).
  rewrite createdBlock_position. specialize (Hbefore b Hb).
  rewrite bump_position; [cbn; lia|].
  unfold safePositions in Hsafe. rewrite Forall_forall in Hsafe. by apply Hsafe.
Qed.

Lemma createBlock_at_front_witness :
  currentBlocks (snd (createBlock (sampleEnv "n") markdown (Some (-2))
                        (sampleWorld threeBlocks)))
  = createdBlock (sampleEnv "n") markdown (Some (-2)) (sampleNotebook threeBlocks)
    :: (bump <$> threeBlocks).
Proof.
  apply (createBlock_at_front (sampleEnv "n") markdown (-2)
           (sampleWorld threeBlocks) (sampleNotebook threeBlocks)).
  - reflexivity.
  - apply (bool_decide_unpack _). vm_compute. exact I.
  - repeat constructor; simpl; lia.
  - intros b Hb. apply list_elem_of_In in Hb. simpl in Hb.
    destruct Hb as [<-|[<-|[<-|[]]]]; discriminate.
Defined.

(** ** Notebooks numbered 0, 1, 2, ... *)

Lemma seqZ_ordered m n : StronglySorted Z.le (seqZ m n).
Proof.
  destruct (decide (n ≤ 0)) as [Hn|Hn]; [rewrite seqZ_nil by done; constructor|].
  rewrite <- (Z2Nat.id n) by lia. generalize (Z.to_nat n) as k. clear n Hn.
  intros k. revert m. induction k as [|k IH]; intros m.
  - rewrite seqZ_nil by done. constructor.
  - rewrite seqZ_cons by lia.
    replace (Z.pred (Z.of_nat (S k))) with (Z.of_nat k) by lia.
    constructor; [apply IH|].
    apply Forall_seqZ. lia.
Qed.

Lemma positions_shifted p l :
  safePositions l →
  positions (shifted p <$> l)
  = (λ z, if bool_decide (z >= p) then z + 1 else z) <$> positions l.
Proof.
  intros Hsafe. unfold positions. rewrite <- !list_fmap_compose.
  apply list_fmap_ext. intros i b Hb. cbn.
  apply shifted_position.
  unfold safePositions in Hsafe. rewrite Forall_forall in Hsafe.
  apply Hsafe. by eapply list_elem_of_lookup_2.
Qed.

(** Blocks numbered from 0 sit at safe integers when their count is one. *)
Lemma dense_safe l :
  dense l → safe (Z.of_nat (length l)) → safePositions l.
Proof.
  unfold dense, positions, safePositions. intros Hdense Hcount.
  assert (Forall safe (Block.position <$> l)) as Hall
    by (rewrite Hdense; apply Forall_seqZ; unfold safe in *; lia).
  rewrite Forall_fmap in Hall. exact Hall.
Qed.

Lemma shifted_seqZ p n :
  0 ≤ p ≤ n →
  (λ z, if bool_decide (z >= p) then z + 1 else z) <$> seqZ 0 n
  = seqZ 0 p ++ seqZ (p + 1) (n - p).
Proof.
  intros Hp. replace n with (p + (n - p)) at 1 by lia.
  rewrite seqZ_app, fmap_app by lia. f_equal.
  - rewrite <- (list_fmap_id (seqZ 0 p)) at 2.
    apply list_fmap_ext. intros i z Hz. cbn.
    apply list_elem_of_lookup_2, elem_of_seqZ in Hz.
    case_bool_decide; [lia|done].
  - replace (p + 1) with (1 + (0 + p)) by lia.
    rewrite <- (fmap_add_seqZ 1 (0 + p)).
    apply list_fmap_ext. intros i z Hz.
    apply list_elem_of_lookup_2, elem_of_seqZ in Hz.
    case_bool_decide; lia.
Qed.

Lemma seqZ_insert p n :
  0 ≤ p ≤ n →
  (seqZ 0 p ++ seqZ (p + 1) (n - p)) ++ [p] ≡ₚ seqZ 0 (n + 1).
Proof.
  intros Hp. replace (n + 1) with (p + (n + 1 - p)) by lia.
  rewrite seqZ_app by lia. rewrite Z.add_0_l.
  rewrite (seqZ_cons p) by lia.
  replace (Z.succ p) with (p + 1) by lia.
  replace (Z.pred (n + 1 - p)) with (n - p) by lia.
  rewrite <- (assoc_L (++)). apply Permutation_app_head.
  symmetry. apply Permutation_cons_append.
Qed.

Lemma dense_positions_created env type position nb :
  dense (Notebook.blocks nb) →
  (is_Some position → safe (Z.of_nat (length (Notebook.blocks nb)))) →
  (∀ p, position = Some p → 0 ≤ p ≤ Z.of_nat (length (Notebook.blocks nb))) →
  positions ((renumbered position <$> Notebook.blocks nb)
             ++ [createdBlock env type position nb])
  ≡ₚ seqZ 0 (Z.of_nat (length (Notebook.blocks nb)) + 1).
Proof.
  intros Hdense Hcount Hrange.
  assert (∀ l x, positions (l ++ [x]) = positions l ++ [Block.position x]) as ->
    by (intros; unfold positions; by rewrite fmap_app).
  rewrite createdBlock_position.
  destruct position as [p|].
  - change (renumbered (Some p)) with (shifted p).
    rewrite positions_shifted by (apply dense_safe, Hcount; by eauto).
    rewrite Hdense, shifted_seqZ by by apply Hrange.
    apply seqZ_insert. by apply Hrange.
  - change (renumbered None) with (λ b : Block.t, b).
    rewrite list_fmap_id, Hdense. cbn [targetPosition].
    rewrite (seqZ_app 0 (Z.of_nat (length (Notebook.blocks nb))) 1) by lia.
    rewrite (seqZ_cons _ 1) by lia. by rewrite Z.add_0_l.
Qed.

(** A notebook whose blocks are numbered 0 to n-1 in list order stays so
    numbered, now 0 to n, after [createBlock] without a position or with a
    position between 0 and n; the new block then sits at the index equal to
    its position.  Where blocks are renumbered, the block count is taken to
    be a safe integer, as the length of a JavaScript array, below 2^32,
    always is. *)
Theorem createBlock_dense env type position w nb :
  notebook w = Some nb →
  dense (Notebook.blocks nb) →
  (is_Some position → safe (Z.of_nat (length (Notebook.blocks nb)))) →
  (∀ p, position = Some p → 0 ≤ p ≤ Z.of_nat (length (Notebook.blocks nb))) →
  let after := currentBlocks (snd (createBlock env type position w)) in
  dense after ∧
  after !! Z.to_nat (targetPosition position nb)
  = Some (createdBlock env type position nb).
Proof.
  intros Hnb Hdense Hcount Hrange after.
  assert (after ≡ₚ (renumbered position <$> Notebook.blocks nb)
                   ++ [createdBlock env type position nb]) as Hperm
    by apply (currentBlocks_perm _ _ _ _ _ Hnb).
  assert (length after = S (length (Notebook.blocks nb))) as Hlen.
  { rewrite Hperm, length_app, length_fmap. cbn. lia. }
  assert (positions after = seqZ 0 (Z.of_nat (length (Notebook.blocks nb)) + 1))
    as Hpositions.
  { apply (StronglySorted_unique Z.le).
    - apply (created_ordered _ _ _ _ _ Hnb).
    - apply seqZ_ordered.
    - unfold positions at 1. rewrite Hperm.
      by apply dense_positions_created. }
  split.
  - unfold dense. rewrite Hpositions, Hlen. f_equal. lia.
  - assert (createdBlock env type position nb ∈ after) as Hin.
    { rewrite Hperm. apply elem_of_app. right. by left. }
    apply list_elem_of_lookup_1 in Hin as [i Hi].
    assert (positions after !! i = Some (targetPosition position nb)) as Hat.
    { unfold positions. rewrite list_lookup_fmap, Hi. cbn. f_equal.
      apply createdBlock_position. }
    rewrite Hpositions in Hat. apply lookup_seqZ in Hat as [-> _].
    by rewrite Z.add_0_l, Nat2Z.id.
Qed.

Lemma createBlock_dense_witness :
  let after :=
    currentBlocks (snd (createBlock (sampleEnv "n") python (Some 2)
                          (sampleWorld threeBlocks))) in
  dense after ∧
  after !! 2%nat = Some (createdBlock (sampleEnv "n") python (Some 2)
                           (sampleNotebook threeBlocks)).
Proof.
  apply (createBlock_dense (sampleEnv "n") python (Some 2)
           (sampleWorld threeBlocks) (sampleNotebook threeBlocks)).
  - reflexivity.
  - reflexivity.
  - intros _. split; simpl; lia.
  - intros p [= <-]. simpl. lia.
Defined.

(** ** Sessions *)

Lemma perform_loaded w nb action :
  notebook w = Some nb →
  ∃ nb',
    notebook (perform w action) = Some nb' ∧
    Notebook.id nb' = Notebook.id nb ∧
    Notebook.files nb `prefix_of` Notebook.files nb' ∧
    length (Notebook.files nb')
    = (length (Notebook.files nb) + creations [action])%nat ∧
    length (Notebook.blocks nb')
    = (length (Notebook.blocks nb) + creations [action])%nat ∧
    ∃ requests,
      network (perform w action) = network w ++ requests ∧
      length requests = creations [action].
Proof.
  intros Hnb.
  destruct action as [selected|id updates|[env type position]];
    cbn [perform creations].
  - cbn. exists nb. split_and!; try done; try lia.
    exists []. by rewrite app_nil_r.
  - rewrite (updateBlock_loaded _ _ _ _ Hnb). cbn.
    eexists. split; [done|]. cbn. rewrite length_fmap. split_and!; try done; try lia.
    exists []. by rewrite app_nil_r.
  - unfold afterCreate. cbn [callEnv callType callPosition].
    rewrite (createBlock_loaded _ _ _ _ _ Hnb). cbn.
    eexists. split; [done|]. cbn. split_and!; [done| | | |].
    + by apply prefix_app_r.
    + rewrite length_app. cbn. lia.
    + rewrite (sort_perm byPosition), length_app, length_fmap. cbn. lia.
    + by eexists.
Qed.

Lemma perform_unloaded w action :
  notebook w = None →
  notebook (perform w action) = None ∧
  console (perform w action) = console w ∧
  network (perform w action) = network w.
Proof.
  intros Hnb. destruct action as [selected|id updates|call]; cbn [perform].
  - done.
  - by rewrite (updateBlock_unloaded _ _ _ Hnb).
  - by rewrite (afterCreate_unloaded _ _ Hnb).
Qed.

Lemma creations_cons action actions :
  creations (action :: actions) = (creations [action] + creations actions)%nat.
Proof. destruct action; cbn; lia. Qed.

(** With no notebook loaded, a session of selections, updates and creations
    loads none, writes nothing to the console and sends no request to the
    server: at most the selection changes. *)
Theorem session_unloaded actions w :
  notebook w = None →
  notebook (session actions w) = None ∧
  console (session actions w) = console w ∧
  network (session actions w) = network w.
Proof.
  unfold session. revert w.
  induction actions as [|action actions IH]; intros w Hnb; cbn; [done|].
  destruct (perform_unloaded w action Hnb) as (Hnb' & Hconsole & Hnetwork).
  destruct (IH _ Hnb') as (-> & -> & ->). done.
Qed.

Lemma session_unloaded_witness :
  notebook (session sampleSession emptyWorld) = None ∧
  console (session sampleSession emptyWorld) = [] ∧
  network (session sampleSession emptyWorld) = [].
Proof. apply (session_unloaded sampleSession emptyWorld). reflexivity. Defined.

(** On a loaded notebook, a session of selections, updates and creations
    keeps the notebook's identifier, only appends to its file list, and adds
    exactly one block, one file descriptor and one request to the server for
    each [createBlock] in it. *)
Theorem session_append_only actions w nb :
  notebook w = Some nb →
  ∃ nb',
    notebook (session actions w) = Some nb' ∧
    Notebook.id nb' = Notebook.id nb ∧
    Notebook.files nb `prefix_of` Notebook.files nb' ∧
    length (Notebook.files nb')
    = (length (Notebook.files nb) + creations actions)%nat ∧
    length (Notebook.blocks nb')
    = (length (Notebook.blocks nb) + creations actions)%nat ∧
    ∃ requests,
      network (session actions w) = network w ++ requests ∧
      length requests = creations actions.
Proof.
  unfold session. revert w nb.
  induction actions as [|action actions IH]; intros w nb Hnb.
  - cbn. exists nb. split_and!; try done; try lia.
    exists []. by rewrite app_nil_r.
  - cbn [foldl]. rewrite creations_cons.
    destruct (perform_loaded w nb action Hnb)
      as (nb1 & Hnb1 & Hid1 & Hpre1 & Hfiles1 & Hblocks1 & req1 & Hnet1 & Hlen1).
    destruct (IH _ _ Hnb1)
      as (nb2 & Hnb2 & Hid2 & Hpre2 & Hfiles2 & Hblocks2 & req2 & Hnet2 & Hlen2).
    exists nb2. split_and!; [done|congruence|by etrans|lia|lia|].
    exists (req1 ++ req2). rewrite Hnet2, Hnet1, length_app, (assoc_L (++)).
    split; [done|lia].
Qed.

Lemma session_append_only_witness :
  ∃ nb',
    notebook (session sampleSession (sampleWorld threeBlocks)) = Some nb' ∧
    Notebook.id nb' = "nb" ∧
    Notebook.files (sampleNotebook threeBlocks) `prefix_of` Notebook.files nb' ∧
    length (Notebook.files nb') = 5%nat ∧
    length (Notebook.blocks nb') = 5%nat ∧
    ∃ requests,
      network (session sampleSession (sampleWorld threeBlocks)) = [] ++ requests ∧
      length requests = 2%nat.
Proof.
  apply (session_append_only sampleSession (sampleWorld threeBlocks)
           (sampleNotebook threeBlocks)).
  reflexivity.
Defined.

(** ** More on the file endpoint *)

(** A handler always answers, with status 200 or 500.  With 200 it has
    written nothing to the console; with 500 it has written exactly one
    line, which names the requested path and carries the very error that was
    caught: the one thrown when the storage service was asked for, or the
    one thrown by the storage call.  When the storage service cannot even be
    obtained, the storage is untouched. *)
Theorem file_endpoint_logs {Store}
    (service : outcome (Route.StorageService Store)) params server :
  let filePath := String.concat "/" (Route.path params) in
  (∃ response,
     fst (Route.GET service params server) = Returns response ∧
     ((Route.status response = 200 ∧
       Route.serverConsole (snd (Route.GET service params server))
       = Route.serverConsole server) ∨
      (Route.status response = 500 ∧
       ∃ error,
         (service = Throws error ∨
          ∃ storageService store,
            service = Returns storageService ∧
            Route.getFile storageService filePath (Route.storage server)
            = (Throws error, store)) ∧
         Route.serverConsole (snd (Route.GET service params server))
         = Route.serverConsole server
           ++ [mkLog ("Error fetching file " +:+ filePath +:+ ":") error]))) ∧
  (∃ response,
     fst (Route.DELETE service params server) = Returns response ∧
     ((Route.status response = 200 ∧
       Route.serverConsole (snd (Route.DELETE service params server))
       = Route.serverConsole server) ∨
      (Route.status response = 500 ∧
       ∃ error,
         (service = Throws error ∨
          ∃ storageService store,
            service = Returns storageService ∧
            Route.deleteFile storageService filePath (Route.storage server)
            = (Throws error, store)) ∧
         Route.serverConsole (snd (Route.DELETE service params server))
         = Route.serverConsole server
           ++ [mkLog ("Error deleting file " +:+ filePath +:+ ":") error]))) ∧
  ((∃ error, service = Throws error) →
   Route.storage (snd (Route.GET service params server)) = Route.storage server ∧
   Route.storage (snd (Route.DELETE service params server)) = Route.storage server).
Proof.
  intros filePath. subst filePath. rewrite GET_run, DELETE_run.
  unfold Route.joined. split_and!.
  - destruct service as [storageService|error]; cbn.
    + destruct (Route.getFile _ _ _) as [[content|error] store] eqn:Hget; cbn;
        eexists; (split; [done|]); [left|right]; cbn; [done|].
      split; [done|]. exists error. split; [|done]. right. by eauto.
    + eexists. split; [done|]. right. cbn. split; [done|].
      exists error. split; [by left|done].
  - destruct service as [storageService|error]; cbn.
    + destruct (Route.deleteFile _ _ _) as [[[]|error] store] eqn:Hdelete; cbn;
        eexists; (split; [done|]); [left|right]; cbn; [done|].
      split; [done|]. exists error. split; [|done]. right. by eauto.
    + eexists. split; [done|]. right. cbn. split; [done|].
      exists error. split; [by left|done].
  - by intros [error ->].
Qed.

Lemma file_endpoint_logs_witness :
  Route.storage
    (snd (Route.DELETE (Throws (mkError "storage unavailable"))
            (Route.mkParams ["a"; "b.txt"]) sampleServer))
  = [("a/b.txt", "hello")].
Proof.
  destruct (file_endpoint_logs (Throws (mkError "storage unavailable"))
              (Route.mkParams ["a"; "b.txt"]) sampleServer) as (_ & _ & Hstorage).
  apply Hstorage. eexists. reflexivity.
Defined.

(** The storage is asked for the segments joined by '/', and nothing else
    of the parameters is used: two requests whose segments join to the same
    path, such as [a, b.txt] and [a/b.txt], are answered alike. *)
Theorem file_endpoint_joined_path {Store}
    (service : outcome (Route.StorageService Store)) params params' server :
  String.concat "/" (Route.path params) = String.concat "/" (Route.path params') →
  Route.GET service params server = Route.GET service params' server ∧
  Route.DELETE service params server = Route.DELETE service params' server.
Proof.
  intros Hjoined. rewrite !GET_run, !DELETE_run.
  unfold Route.joined. by rewrite Hjoined.
Qed.

Lemma file_endpoint_joined_path_witness :
  Route.GET (Returns sampleStorage) (Route.mkParams ["a"; "b.txt"]) sampleServer
  = Route.GET (Returns sampleStorage) (Route.mkParams ["a/b.txt"]) sampleServer ∧
  Route.DELETE (Returns sampleStorage) (Route.mkParams ["a"; "b.txt"]) sampleServer
  = Route.DELETE (Returns sampleStorage) (Route.mkParams ["a/b.txt"]) sampleServer.
Proof.
  apply (file_endpoint_joined_path (Returns sampleStorage)
           (Route.mkParams ["a"; "b.txt"]) (Route.mkParams ["a/b.txt"]) sampleServer).
  reflexivity.
Defined.
